(** * Shallow embedding of [ugali/analysis/loglike.py] (class [LogLikelihood])

    Numbers are numpy doubles idealised as exact rationals extended with
    the IEEE special values (+inf, -inf, NaN); rounding is not modelled.
    The engine object is modelled by its instance [__dict__]; the external
    collaborators (kernel, isochrone, mask, ROI pixelisation, Parabola,
    the double logarithm) are Section variables. *)

From Stdlib Require Import QArith Qabs Lia.
From stdpp Require Import base gmap strings list.

Open Scope string_scope.

(* ------------------------------------------------------------------ *)
(** ** Doubles: rationals with infinities and NaN *)

Module Fl.

Inductive fl := Fin (q : Q) | PInf | NInf | NaN.

Definition qlt (a b : Q) : bool := negb (Qle_bool b a).

Definition fneg (x : fl) : fl :=
  match x with Fin a => Fin (- a) | PInf => NInf | NInf => PInf | NaN => NaN end.

Definition fadd (x y : fl) : fl :=
  match x, y with
  | NaN, _ | _, NaN => NaN
  | PInf, NInf | NInf, PInf => NaN
  | PInf, _ | _, PInf => PInf
  | NInf, _ | _, NInf => NInf
  | Fin a, Fin b => Fin (a + b)
  end.

Definition fsub (x y : fl) : fl := fadd x (fneg y).

(** [q * inf] with the sign of [q]; [0 * inf] is NaN. *)
Definition scale_inf (q : Q) (pos : bool) : fl :=
  if Qeq_bool q 0 then NaN
  else if xorb (qlt q 0) (negb pos) then NInf else PInf.

Definition fmul (x y : fl) : fl :=
  match x, y with
  | NaN, _ | _, NaN => NaN
  | Fin a, Fin b => Fin (a * b)
  | Fin a, PInf | PInf, Fin a => scale_inf a true
  | Fin a, NInf | NInf, Fin a => scale_inf a false
  | PInf, PInf | NInf, NInf => PInf
  | PInf, NInf | NInf, PInf => NInf
  end.

Definition fdiv (x y : fl) : fl :=
  match x, y with
  | NaN, _ | _, NaN => NaN
  | Fin a, Fin b =>
      if Qeq_bool b 0 then
        (if Qeq_bool a 0 then NaN else if qlt 0 a then PInf else NInf)
      else Fin (a / b)
  | Fin _, PInf | Fin _, NInf => Fin 0
  | PInf, Fin b => if qlt b 0 then NInf else PInf
  | NInf, Fin b => if qlt b 0 then PInf else NInf
  | _, _ => NaN
  end.

(** Comparisons: every comparison with NaN is false. *)
Definition flt (x y : fl) : bool :=
  match x, y with
  | Fin a, Fin b => qlt a b
  | NInf, Fin _ | NInf, PInf | Fin _, PInf => true
  | _, _ => false
  end.

Definition feq (x y : fl) : bool :=
  match x, y with
  | Fin a, Fin b => Qeq_bool a b
  | PInf, PInf | NInf, NInf => true
  | _, _ => false
  end.

Definition fle (x y : fl) : bool := flt x y || feq x y.

Definition isnan (x : fl) : bool := match x with NaN => true | _ => false end.

Definition fabs (x : fl) : fl :=
  match x with Fin a => Fin (Qabs a) | NInf => PInf | v => v end.

(** Truth value of a double (numpy.any): non-zero, NaN included. *)
Definition nonzero (x : fl) : bool := negb (feq x (Fin 0)).

(** [numpy.isfinite]. *)
Definition isfinite (x : fl) : bool := match x with Fin _ => true | _ => false end.

Definition fin_nonneg (x : fl) : bool :=
  match x with Fin a => Qle_bool 0 a | _ => false end.

(** [2^1023]: a product and then a sum of non-negative doubles whose exact
    value stays below it cannot overflow to [inf]. *)
Definition dbl_bound : Q := inject_Z (2 ^ 1023).

End Fl.
Export Fl.

(* ------------------------------------------------------------------ *)
(** ** Python exceptions and the error monad *)

Inductive exn := AttributeError | ValueError | TypeError | KeyError | IndexError.

Inductive result (A : Type) := Ok (a : A) | Err (x : exn).
Arguments Ok {A} a.
Arguments Err {A} x.

Definition rbind {A B} (m : result A) (k : A -> result B) : result B :=
  match m with Ok a => k a | Err x => Err x end.

Notation "'do' x <- m ; k" := (rbind m (fun x => k))
  (at level 200, x name, m at level 100, k at level 200).

(* ------------------------------------------------------------------ *)
(** ** numpy helpers *)

(** Elementwise binary operation with numpy broadcasting on 1-d arrays. *)
Definition bcast (op : fl -> fl -> fl) (xs ys : list fl) : result (list fl) :=
  if Nat.eqb (length xs) (length ys) then Ok (zip_with op xs ys)
  else match xs, ys with
       | [x], _ => Ok (map (op x) ys)
       | _, [y] => Ok (map (fun a => op a y) xs)
       | _, _ => Err ValueError
       end.

(** The entry a broadcast array contributes at index [i]. *)
Definition at_bcast (xs : list fl) (i : nat) : fl :=
  if Nat.eqb (length xs) 1 then nth 0 xs NaN else nth i xs NaN.

(** [numpy.sum] (exact arithmetic: the summation order is immaterial). *)
Definition fsum (xs : list fl) : fl := fold_left fadd xs (Fin 0).

(** [numpy.max]: NaN propagates. *)
Definition fmax2 (a b : fl) : fl :=
  if isnan a || isnan b then NaN else if flt a b then b else a.

Definition np_max (xs : list fl) : result fl :=
  match xs with [] => Err ValueError | x :: r => Ok (fold_left fmax2 r x) end.

(** [numpy.argmax]: index of the first maximum; a NaN counts as the maximum
    and the first NaN wins. *)
Fixpoint argmax_from (xs : list fl) (i : nat) (bi : nat) (bv : fl) : nat :=
  match xs with
  | [] => bi
  | x :: r =>
      if isnan bv then bi
      else if isnan x || flt bv x then argmax_from r (S i) i x
      else argmax_from r (S i) bi bv
  end.

Definition np_argmax (xs : list fl) : result nat :=
  match xs with [] => Err ValueError | x :: r => Ok (argmax_from r 1 0 x) end.

(** Python's [max(a, b)]: [b] replaces [a] only when [b > a]. *)
Definition py_max (a b : fl) : fl := if flt a b then b else a.

(** [numpy.linspace(start, stop, num)] (endpoint=True), following numpy's
    own computation [arange(num) * step + start], last point set to [stop]. *)
Definition linspace (start stop : fl) (num : Z) : result (list fl) :=
  if (num <? 0)%Z then Err ValueError else
  let n := Z.to_nat num in
  let div := (num - 1)%Z in
  let delta := fsub stop start in
  let ks := map (fun k => Fin (inject_Z (Z.of_nat k))) (seq 0 n) in
  let ys :=
    if (0 <? div)%Z then
      let step := fdiv delta (Fin (inject_Z div)) in
      if feq step (Fin 0)
      then map (fun k => fmul (fdiv k (Fin (inject_Z div))) delta) ks
      else map (fun k => fmul k step) ks
    else map (fun k => fmul k delta) ks in
  let ys := map (fun y => fadd y start) ys in
  Ok (if (1 <? num)%Z then (take (n - 1) ys ++ [stop])%list else ys).

(* ------------------------------------------------------------------ *)
(** ** Python values and the engine's instance dictionary *)

(** A sub-model ([ugali.analysis.model.Model]): its ordered parameters. *)
Definition params := list (string * fl).

Inductive pyval :=
  | VNum (x : fl)
  | VArr (xs : list fl)
  | VBool (b : bool)
  | VFlags (fs : list (string * bool))                 (* self._sync *)
  | VModels (ms : list (string * params)).             (* self.models *)

(** The engine object, as its instance [__dict__]. *)
Abbreviation engine := (gmap string pyval).

Fixpoint assoc {V} (k : string) (l : list (string * V)) : option V :=
  match l with
  | [] => None
  | (k', v) :: r => if String.eqb k k' then Some v else assoc k r
  end.

(** OrderedDict item assignment: replace in place, or append a new key. *)
Fixpoint assoc_set {V} (k : string) (v : V) (l : list (string * V)) : list (string * V) :=
  match l with
  | [] => [(k, v)]
  | (k', v') :: r => if String.eqb k k' then (k', v) :: r else (k', v') :: assoc_set k v r
  end.

Definition mem_key {V} (k : string) (l : list (string * V)) : bool :=
  match assoc k l with Some _ => true | None => false end.

Definition num_of (v : pyval) : result fl :=
  match v with VNum x => Ok x | _ => Err TypeError end.

Definition arr_of (v : pyval) : result (list fl) :=
  match v with VArr xs => Ok xs | _ => Err TypeError end.

(** Python truth value of [self.spatial_only]. *)
Definition truthy (v : pyval) : result bool :=
  match v with VBool b => Ok b | VNum x => Ok (nonzero x) | _ => Err TypeError end.

(* ------------------------------------------------------------------ *)
(** ** Attribute access: [__getattr__] and [__setattr__] *)

(** [self.models] (set by [set_model] through [object.__setattr__]). *)
Definition models_of (e : engine) : result (list (string * params)) :=
  match e !! "models" with
  | Some (VModels ms) => Ok ms
  | Some _ => Err TypeError
  | None => Err AttributeError
  end.

(** [self.models[key].params]. *)
Definition model_params (e : engine) (key : string) : result params :=
  do ms <- models_of e;
  match assoc key ms with Some ps => Ok ps | None => Err KeyError end.

Fixpoint find_param (name : string) (ms : list (string * params)) : option fl :=
  match ms with
  | [] => None
  | (_, ps) :: r => match assoc name ps with Some v => Some v | None => find_param name r end
  end.

(** [LogLikelihood.__getattr__]: the first sub-model owning [name], else
    [object.__getattribute__], which raises. *)
Definition getattr_fallback (e : engine) (name : string) : result pyval :=
  do ms <- models_of e;
  match find_param name ms with Some v => Ok (VNum v) | None => Err AttributeError end.

(** Ordinary attribute lookup: the instance dictionary, then [__getattr__]. *)
Definition getattr_plain (e : engine) (name : string) : result pyval :=
  match e !! name with Some v => Ok v | None => getattr_fallback e name end.

(** The read-only properties [u], [b], [p], [f] return [_u], [_b], [_p], [_f]. *)
Definition prop_field (name : string) : option string :=
  if String.eqb name "u" then Some "_u"
  else if String.eqb name "b" then Some "_b"
  else if String.eqb name "p" then Some "_p"
  else if String.eqb name "f" then Some "_f"
  else None.

(** When a property raises [AttributeError], Python retries [__getattr__]. *)
Definition getattr (e : engine) (name : string) : result pyval :=
  match prop_field name with
  | Some fld =>
      match getattr_plain e fld with
      | Err AttributeError => getattr_fallback e name
      | r => r
      end
  | None => getattr_plain e name
  end.

Definition getattr_num (e : engine) (name : string) : result fl :=
  do v <- getattr e name; num_of v.

Definition getattr_arr (e : engine) (name : string) : result (list fl) :=
  do v <- getattr e name; arr_of v.

(** Class properties without a setter: [object.__setattr__] refuses them. *)
Definition read_only (name : string) : bool :=
  existsb (String.eqb name) ["kernel"; "isochrone"; "params"; "pixel"; "u"; "b"; "p"; "f"].

(** [self._sync]. *)
Definition flags_of (e : engine) : result (list (string * bool)) :=
  do v <- getattr_plain e "_sync";
  match v with VFlags fs => Ok fs | _ => Err TypeError end.

(** [self._sync[key]]. *)
Definition flag (e : engine) (key : string) : result bool :=
  do fs <- flags_of e;
  match assoc key fs with Some b => Ok b | None => Err KeyError end.

(** The key of the first sub-model whose parameters contain [name]. *)
Fixpoint owner (name : string) (ms : list (string * params)) : option string :=
  match ms with
  | [] => None
  | (k, ps) :: r => if mem_key name ps then Some k else owner name r
  end.

(** Modelled from the spec: [Model.__setattr__] of [ugali.analysis.model]
    (not in src) sets the named Parameter's scalar value. *)
Definition model_set (ms : list (string * params)) (key name : string) (x : fl)
    : list (string * params) :=
  map (fun kp => if String.eqb kp.1 key then (kp.1, assoc_set name x kp.2) else kp) ms.

Definition model_setattr (ms : list (string * params)) (key name : string) (v : pyval)
    : result (list (string * params)) :=
  do x <- num_of v;
  Ok (model_set ms key name x).

(** [LogLikelihood.__setattr__]. *)
Definition setattr (e : engine) (name : string) (v : pyval) : result engine :=
  do ms <- models_of e;
  match owner name ms with
  | Some key =>
      do fs <- flags_of e;
      let e := <["_sync" := VFlags (assoc_set key true fs)]> e in
      do ms' <- model_setattr ms key name v;
      Ok (<["models" := VModels ms']> e)
  | None =>
      if read_only name then Err AttributeError else Ok (<[name := v]> e)
  end.

(* ------------------------------------------------------------------ *)
(** ** The likelihood engine *)

Section Engine.

(** The interior catalog [self.catalog] and the interior ROI pixels; both are
    fixed when the engine is built and never reassigned afterwards. *)
Variable Obj Pix Pt : Type.
Variable catalog : list Obj.
Variable pixels_interior : list Pix.
Variable pix_lonlat : Pix -> Pt.
Variable obj_lonlat : Obj -> Pt.
(** [self.roi.area_pixel]. *)
Variable area_pixel : fl.
(** [kernel.pdf(lon, lat)] for the spatial model's parameters. *)
Variable kernel_pdf : params -> Pt -> fl.
(** [isochrone.pdf(mag_1, mag_2, mag_err_1, mag_err_2, distance_modulus, ...)]
    for one catalog object, and [isochrone.observableFraction(mask, dm)]. *)
Variable isochrone_pdf : params -> fl -> Obj -> fl.
Variable isochrone_observableFraction : params -> fl -> list fl.
(** [take2D(cmd_background, color, mag, ...)] at one catalog object, and the
    annulus density of the spatial-only variant of [calc_background]. *)
Variable take2D : Obj -> fl.
Variable annulus_density : fl.
(** [self.pixel in self.roi.pixels_interior], i.e. [ang2pix] of (lon, lat). *)
Variable in_interior : fl -> fl -> bool.
(** [numpy.log] on a positive finite double. *)
Variable ln_pos : Q -> Q.
(** [ugali.utils.parabola.Parabola(x, y)]: its [vertex_x],
    [profileUpperLimit(delta)] and [confidenceInterval(alpha)]. *)
Variable vertex_x : list fl -> list fl -> fl.
Variable profileUpperLimit : list fl -> list fl -> fl -> fl.
Variable CI : Type.
Variable confidenceInterval : list fl -> list fl -> fl -> CI.

Definition calc_observable_fraction (e : engine) (distance_modulus : fl) : result (list fl) :=
  do cps <- model_params e "color";
  let observable_fraction := isochrone_observableFraction cps distance_modulus in
  if flt (Fin 0) (fsum observable_fraction) then Ok observable_fraction
  else Err ValueError.

Definition calc_signal_color (e : engine) (distance_modulus : fl) : result (list fl) :=
  do cps <- model_params e "color";
  Ok (map (isochrone_pdf cps distance_modulus) catalog).

(** Returns [u_spatial] and the state with the two surface intensities set. *)
Definition calc_signal_spatial (e : engine) : result (list fl * engine) :=
  do kps <- model_params e "spatial";
  do e <- setattr e "surface_intensity_sparse"
            (VArr (map (fun px => kernel_pdf kps (pix_lonlat px)) pixels_interior));
  do kps <- model_params e "spatial";
  do e <- setattr e "surface_intensity_object"
            (VArr (map (fun o => kernel_pdf kps (obj_lonlat o)) catalog));
  do u_spatial <- getattr_arr e "surface_intensity_object";
  Ok (u_spatial, e).

(** The [if self._sync['color']] block of [sync_params]. *)
Definition sync_color (e : engine) : result engine :=
  do c <- flag e "color";
  if c then
    do dm <- getattr_num e "distance_modulus";
    do observable_fraction <- calc_observable_fraction e dm;
    do e <- setattr e "observable_fraction" (VArr observable_fraction);
    do dm <- getattr_num e "distance_modulus";
    do u_color <- calc_signal_color e dm;
    setattr e "u_color" (VArr u_color)
  else Ok e.

(** The [if self._sync['spatial']] block of [sync_params]. *)
Definition sync_spatial (e : engine) : result engine :=
  do s <- flag e "spatial";
  if s then
    do r <- calc_signal_spatial e;
    setattr r.2 "u_spatial" (VArr r.1)
  else Ok e.

(** The combination step of [sync_params]: [_u], [_f], the spatial-only
    override, and [_p]. *)
Definition combine (e : engine) : result engine :=
  do us <- getattr_arr e "u_spatial";
  do uc <- getattr_arr e "u_color";
  do u <- bcast fmul us uc;
  do e <- setattr e "_u" (VArr u);
  do sis <- getattr_arr e "surface_intensity_sparse";
  do obs <- getattr_arr e "observable_fraction";
  do w <- bcast fmul sis obs;
  do e <- setattr e "_f" (VNum (fmul area_pixel (fsum w)));
  do so <- getattr e "spatial_only";
  do so <- truthy so;
  do e <- (if so then
             do us <- getattr_arr e "u_spatial";
             do e <- setattr e "_u" (VArr us);
             do obs <- getattr_arr e "observable_fraction";
             let obs_b := map (fun x => if flt (Fin 0) x then Fin 1 else Fin 0) obs in
             do sis <- getattr_arr e "surface_intensity_sparse";
             do w <- bcast fmul sis obs_b;
             setattr e "_f" (VNum (fmul area_pixel (fsum w)))
           else Ok e);
  do r <- getattr_num e "richness";
  do u <- getattr_arr e "u";
  let num := map (fmul r) u in
  do r' <- getattr_num e "richness";
  do u' <- getattr_arr e "u";
  do b <- getattr_arr e "b";
  do den <- bcast fadd (map (fmul r') u') b;
  do p <- bcast fdiv num den;
  setattr e "_p" (VArr p).

(** [for k in self._sync.keys(): self._sync[k] = False]. *)
Definition reset_sync (e : engine) : result engine :=
  do fs <- flags_of e;
  Ok (<["_sync" := VFlags (map (fun kv => (kv.1, false)) fs)]> e).

(** [LogLikelihood.sync_params]. *)
Definition sync_params (e : engine) : result engine :=
  do _ <- flag e "richness";
  do e <- sync_color e;
  do e <- sync_spatial e;
  do e <- combine e;
  reset_sync e.

(** [numpy.log]. *)
Definition np_log (x : fl) : fl :=
  match x with
  | Fin q => if qlt q 0 then NaN else if Qeq_bool q 0 then NInf else Fin (ln_pos q)
  | PInf => PInf
  | NInf | NaN => NaN
  end.

(** [LogLikelihood.__call__]. *)
Definition call (e : engine) : result fl :=
  do p <- getattr_arr e "p";
  let s := fsum (map np_log (map (fsub (Fin 1)) p)) in
  do f <- getattr_num e "f";
  do r <- getattr_num e "richness";
  Ok (fsub (fmul (Fin (-1)) s) (fmul f r)).

Fixpoint setattrs (e : engine) (kwargs : list (string * pyval)) : result engine :=
  match kwargs with
  | [] => Ok e
  | (k, v) :: r => do e <- setattr e k v; setattrs e r
  end.

(** [LogLikelihood.set_params]. *)
Definition set_params (e : engine) (kwargs : list (string * pyval)) : result engine :=
  do e <- setattrs e kwargs;
  do lon <- getattr_num e "lon";
  do lat <- getattr_num e "lat";
  if in_interior lon lat then Ok e else Err ValueError.

(** [LogLikelihood.value]: the log-likelihood and the updated engine. *)
Definition value (e : engine) (kwargs : list (string * pyval)) : result (fl * engine) :=
  do e <- set_params e kwargs;
  do e <- sync_params e;
  do l <- call e;
  Ok (l, e).

(** [LogLikelihood.calc_backgroundCMD] ([calc_background]). *)
Definition calc_background (e : engine) : result engine :=
  do e <- setattr e "_b" (VArr (map take2D catalog));
  do so <- getattr e "spatial_only";
  do so <- truthy so;
  if so then setattr e "_b" (VArr [fmul annulus_density area_pixel]) else Ok e.

(** The [Richness] model: one parameter, default 1.0. *)
Definition richness_params : params := [("richness", Fin 1)].

(** [LogLikelihood.__init__] for given colour and spatial sub-models and
    configuration; the catalog clipping is the fixed [catalog] above. *)
Definition init (color_params spatial_params : params) (delta_mag : fl)
    (spatial_only color_only : bool) : result engine :=
  let ms := [("richness", richness_params); ("color", color_params);
             ("spatial", spatial_params)] in
  let e : engine := {[ "models" := VModels ms ]} in
  do e <- setattr e "_sync" (VFlags (map (fun kp => (kp.1, true)) ms));
  do e <- setattr e "delta_mag" (VNum delta_mag);
  do e <- setattr e "spatial_only" (VBool spatial_only);
  do e <- setattr e "color_only" (VBool color_only);
  if spatial_only && color_only then Err ValueError else calc_background e.

(* ------------------------------------------------------------------ *)
(** ** The richness optimiser *)

(** State threaded through the optimiser: the engine, and the instrumented
    record of every [self.value(richness=r)] call with its result. *)
Definition St : Type := engine * list (fl * fl).
Definition M (A : Type) : Type := St -> result (A * St).

Definition retM {A} (a : A) : M A := fun s => Ok (a, s).
Definition bindM {A B} (m : M A) (k : A -> M B) : M B :=
  fun s => match m s with Ok (a, s') => k a s' | Err x => Err x end.
Definition liftR {A} (r : result A) : M A := fun s => do a <- r; Ok (a, s).

Notation "'doM' x <- m ; k" := (bindM m (fun x => k))
  (at level 200, x name, m at level 100, k at level 200).

(** [self.value(richness=r)]. *)
Definition eval_at (r : fl) : M fl :=
  fun s => do res <- value s.1 [("richness", VNum r)];
           Ok (res.1, (res.2, (s.2 ++ [(r, res.1)])%list)).

Record parabola := Parabola { par_x : list fl; par_y : list fl }.

Definition mk_parabola (richness loglike : list fl) : parabola :=
  Parabola richness (map (fmul (Fin 2)) loglike).

(** The [while not found_maximum] loop of [fit_richness]; [budget] is
    [maxiter - iteration], so the [0] case is never reached before the
    [iteration > maxiter] break. *)
Fixpoint fit_loop (atol : fl) (maxiter budget iteration : nat) (richness loglike : list fl)
    : M (list fl * list fl * parabola) :=
  let par := mk_parabola richness loglike in
  let vx := vertex_x (par_x par) (par_y par) in
  doM st <- (if flt vx (Fin 0) then retM (true, richness, loglike)
             else doM l <- eval_at vx;
                  doM m <- liftR (np_max loglike);
                  retM (flt (fabs (fsub l m)) atol,
                        (richness ++ [vx])%list, (loglike ++ [l])%list));
  let '(found, richness, loglike) := st in
  let iteration := S iteration in
  if Nat.ltb maxiter iteration then retM (richness, loglike, par)
  else if found then retM (richness, loglike, par)
  else match budget with
       | 0 => retM (richness, loglike, par)
       | S budget => fit_loop atol maxiter budget iteration richness loglike
       end.

(** [LogLikelihood.fit_richness(atol, maxiter)]. *)
Definition fit_richness (atol : fl) (maxiter : nat) : M (fl * fl * option parabola) :=
  fun s =>
  do u <- getattr_arr s.1 "u";
  if existsb isnan u then Ok ((Fin 0, Fin 0, None), s)
  else if negb (existsb nonzero u) then Ok ((Fin 0, Fin 0, None), s)
  else
  (doM f <- liftR (getattr_num s.1 "f");
   let richness := [Fin 0; fdiv (Fin 1) f; fdiv (Fin 10) f] in
   doM l0 <- eval_at (Fin 0);
   doM l1 <- eval_at (fdiv (Fin 1) f);
   doM l2 <- eval_at (fdiv (Fin 10) f);
   doM res <- fit_loop atol maxiter maxiter 0 richness [l0; l1; l2];
   let '(richness, loglike, par) := res in
   doM index <- liftR (np_argmax loglike);
   retM (nth index loglike NaN, nth index richness NaN, Some par)) s.

Definition atol_default : fl := Fin (1 # 1000).
Definition maxiter_default : nat := 50.

Fixpoint eval_all (rs : list fl) : M (list fl) :=
  match rs with
  | [] => retM []
  | r :: rest => doM l <- eval_at r; doM ls <- eval_all rest; retM (l :: ls)
  end.

(** [LogLikelihood.richness_interval(alpha, n_pdf_points)]. *)
Definition richness_interval (alpha : fl) (n_pdf_points : Z) : M CI :=
  doM fit <- fit_richness atol_default maxiter_default;
  let '(loglike_max, richness_max, parabola) := fit in
  match parabola with
  | None => liftR (Err AttributeError)        (* None.profileUpperLimit *)
  | Some par =>
      let richness_range :=
        fsub (profileUpperLimit (par_x par) (par_y par) (Fin 25)) richness_max in
      doM richness <- liftR (linspace (py_max (Fin 0) (fsub richness_max richness_range))
                                      (fadd richness_max richness_range) n_pdf_points);
      doM first <- liftR (match richness with x :: _ => Ok x | [] => Err IndexError end);
      let richness := if flt (Fin 0) first then Fin 0 :: richness else richness in
      doM log_likelihood <- eval_all richness;
      let par := mk_parabola richness log_likelihood in
      retM (confidenceInterval (par_x par) (par_y par) alpha)
  end.

End Engine.

(** The attributes [sync_params] assigns; in a well-formed engine no
    sub-model has a parameter of one of these names, so [__setattr__]
    stores them on the engine itself. *)
Definition derived_names : list string :=
  ["observable_fraction"; "u_color"; "surface_intensity_sparse";
   "surface_intensity_object"; "u_spatial"; "_u"; "_f"; "_p"].

Definition names_free (e : engine) : bool :=
  match models_of e with
  | Ok ms => forallb (fun n => match owner n ms with None => true | Some _ => false end)
               derived_names
  | Err _ => false
  end.

(** The attributes [sync_params] may write: [_sync] and the derived names. *)
Definition sync_written : list string := "_sync" :: derived_names.

(** [e'] differs from [e] at most at the attributes [sync_params] writes. *)
Definition agree_outside (e e' : engine) : Prop :=
  forall k, ~ In k sync_written -> e' !! k = e !! k.

(* ------------------------------------------------------------------ *)
(** ** The remaining model-handling methods *)

(** [OrderedDict.update(other)]: item assignment of each pair in turn. *)
Definition odict_update {V} (d other : list (string * V)) : list (string * V) :=
  fold_left (fun d kv => assoc_set kv.1 kv.2 d) other d.

(** The [params] property: [params = odict([])], then
    [params.update(model.params)] for every sub-model in order. *)
Definition params_prop (e : engine) : result params :=
  do ms <- models_of e;
  Ok (fold_left (fun acc kp => odict_update acc kp.2) ms []).

(** [LogLikelihood.set_model(name, model)].  [hasattr(self, 'models')] holds
    when the instance dictionary has [models]; otherwise [__getattr__]
    recurses on [self.models] and Python 2's [hasattr] answers [False], so
    an empty OrderedDict is stored first.  [self.models[name] = model] is
    OrderedDict item assignment. *)
Definition set_model (e : engine) (name : string) (model : params) : result engine :=
  let e := match e !! "models" with
           | Some _ => e
           | None => <["models" := VModels []]> e
           end in
  do ms <- models_of e;
  Ok (<["models" := VModels (assoc_set name model ms)]> e).

(** The names [__init__] assigns on the engine itself and [__call__]
    reads before the first [sync_params]. *)
Definition init_names : list string :=
  ["_sync"; "delta_mag"; "spatial_only"; "color_only"; "_b"; "_p"; "p"].

(** The richness attribute lives in a sub-model: no instance attribute
    shadows it and some sub-model owns it. *)
Definition richness_owned (e : engine) : bool :=
  names_free e &&
  match e !! "richness" with None => true | Some _ => false end &&
  match models_of e with
  | Ok ms => match owner "richness" ms with Some _ => true | None => false end
  | Err _ => false
  end.

Definition richness_tracked (s : St) : Prop :=
  richness_owned s.1 = true /\
  exists r l, last s.2 = Some (r, l) /\ getattr_num s.1 "richness" = Ok r.

Definition preserves {A} (P : St -> Prop) (m : M A) : Prop :=
  forall s a s', P s -> m s = Ok (a, s') -> P s'.

(** [m] appends at most [k] entries to the evaluation record. *)
Definition evals_at_most {A} (k : nat) (m : M A) : Prop :=
  forall s a s', m s = Ok (a, s') -> length s'.2 <= length s.2 + k.

(* ------------------------------------------------------------------ *)
(** ** A concrete instance

    One catalog object and one interior pixel; the collaborators are small
    closed functions.  [ln_pos] is any function standing for the logarithm
    of a positive double: none of the facts below depends on its values. *)

Module Demo.

Definition catalog : list nat := [0%nat].
Definition pixels_interior : list nat := [0%nat].
Definition pix_lonlat (_ : nat) : unit := tt.
Definition obj_lonlat (_ : nat) : unit := tt.
Definition area_pixel : fl := Fin 1.
Definition kernel_pdf (_ : params) (_ : unit) : fl := Fin (1 # 2).
(** A kernel whose support misses the catalog object and the pixel. *)
Definition kernel_zero (_ : params) (_ : unit) : fl := Fin 0.
Definition isochrone_pdf (_ : params) (_ : fl) (_ : nat) : fl := Fin 1.
Definition isochrone_observableFraction (_ : params) (_ : fl) : list fl := [Fin 1].
Definition take2D (_ : nat) : fl := Fin 1.
(** An empty background CMD at the catalog object. *)
Definition take2D_zero (_ : nat) : fl := Fin 0.
Definition annulus_density : fl := Fin 1.
Definition in_interior (_ _ : fl) : bool := true.
Definition ln_pos (q : Q) : Q := q - 1.
(** Parabola vertices: always negative (the loop stops at once), or the
    number of points so far (the loop never stops early). *)
Definition vertex_x (_ _ : list fl) : fl := Fin (-1).
Definition vertex_grow (xs _ : list fl) : fl := Fin (inject_Z (Z.of_nat (length xs))).
Definition profileUpperLimit (_ _ : list fl) (_ : fl) : fl := Fin 5.
Definition confidenceInterval (xs _ : list fl) (_ : fl) : fl * fl :=
  (hd NaN xs, default NaN (last xs)).

Definition color_params : params := [("distance_modulus", Fin 18)].
Definition spatial_params : params := [("lon", Fin 0); ("lat", Fin 0)].
Definition models : list (string * params) :=
  [("richness", richness_params); ("color", color_params); ("spatial", spatial_params)].

Definition sync_d (kernel : params -> unit -> fl) (e : engine) : result engine :=
  sync_params nat nat unit catalog pixels_interior pix_lonlat obj_lonlat area_pixel kernel
    isochrone_pdf isochrone_observableFraction e.

Definition fit_d (kernel : params -> unit -> fl) (vx : list fl -> list fl -> fl)
    : fl -> nat -> M (fl * fl * option parabola) :=
  fit_richness nat nat unit catalog pixels_interior pix_lonlat obj_lonlat area_pixel kernel
    isochrone_pdf isochrone_observableFraction in_interior ln_pos vx.

Definition interval_d (kernel : params -> unit -> fl) (vx : list fl -> list fl -> fl)
    : fl -> Z -> M (fl * fl) :=
  richness_interval nat nat unit catalog pixels_interior pix_lonlat obj_lonlat area_pixel
    kernel isochrone_pdf isochrone_observableFraction in_interior ln_pos vx
    profileUpperLimit (fl * fl) confidenceInterval.

Definition ok_or_empty (r : result engine) : engine :=
  match r with Ok e => e | Err _ => empty end.

(** A freshly constructed engine: every dirty flag is set. *)
Definition engine0 : engine := Eval vm_compute in
  ok_or_empty (init nat catalog area_pixel take2D annulus_density color_params spatial_params
                 (Fin 0) false false).
Definition engine1 : engine := Eval vm_compute in ok_or_empty (sync_d kernel_pdf engine0).
Definition engine2 : engine := Eval vm_compute in
  ok_or_empty (setattr engine1 "richness" (VNum (Fin 2))).
Definition engine3 : engine := Eval vm_compute in ok_or_empty (sync_d kernel_pdf engine2).

(** An engine with no background and no signal at the object. *)
Definition engine_zero : engine := Eval vm_compute in
  ok_or_empty (sync_d kernel_zero
    (ok_or_empty (init nat catalog area_pixel take2D_zero annulus_density color_params
                    spatial_params (Fin 0) false false))).
(** An engine with signal but no background at the object. *)
Definition engine_nobg : engine := Eval vm_compute in
  ok_or_empty (sync_d kernel_pdf
    (ok_or_empty (init nat catalog area_pixel take2D_zero annulus_density color_params
                    spatial_params (Fin 0) false false))).

Definition fit1 : result (fl * fl * option parabola * St) := Eval vm_compute in
  fit_d kernel_pdf vertex_x atol_default maxiter_default (engine1, []).
Definition fit1_loglike : fl := match fit1 with Ok ((l, _, _), _) => l | Err _ => NaN end.
Definition fit1_richness : fl := match fit1 with Ok ((_, r, _), _) => r | Err _ => NaN end.
Definition fit1_parabola : parabola :=
  match fit1 with Ok ((_, _, Some p), _) => p | _ => Parabola [] [] end.
Definition fit1_state : St := match fit1 with Ok (_, s) => s | Err _ => (empty, []) end.

Definition fit_nobg : result (fl * fl * option parabola * St) := Eval vm_compute in
  fit_d kernel_pdf vertex_x atol_default maxiter_default (engine_nobg, []).
Definition fit_nobg_parabola : parabola :=
  match fit_nobg with Ok ((_, _, Some p), _) => p | _ => Parabola [] [] end.
Definition fit_nobg_state : St := match fit_nobg with Ok (_, s) => s | Err _ => (empty, []) end.

Definition interval3 : result ((fl * fl) * St) := Eval vm_compute in
  interval_d kernel_pdf vertex_x (Fin (6827 # 10000)) 3 (engine1, []).
Definition interval3_ci : fl * fl := match interval3 with Ok (c, _) => c | Err _ => (NaN, NaN) end.
Definition interval3_state : St :=
  match interval3 with Ok (_, s) => s | Err _ => (empty, []) end.

(** An isochrone with no observable fraction anywhere. *)
Definition obsfrac_zero (_ : params) (_ : fl) : list fl := [Fin 0].

(** A replacement colour model at another distance modulus. *)
Definition color_params2 : params := [("distance_modulus", Fin 20)].
Definition engine_cm : engine := Eval vm_compute in
  match set_model engine1 "color" color_params2 with Ok e => e | Err _ => empty end.
Definition engine_cm1 : engine := Eval vm_compute in ok_or_empty (sync_d kernel_pdf engine_cm).

Definition params0 : params := Eval vm_compute in
  match params_prop engine0 with Ok P => P | Err _ => [] end.

Definition value_d (e : engine) (kw : list (string * pyval)) : result (fl * engine) :=
  value nat nat unit catalog pixels_interior pix_lonlat obj_lonlat area_pixel kernel_pdf
    isochrone_pdf isochrone_observableFraction in_interior ln_pos e kw.
Definition value1 : result (fl * engine) := Eval vm_compute in
  value_d engine0 [("richness", VNum (Fin 2))].
Definition value1_loglike : fl := match value1 with Ok (l, _) => l | Err _ => NaN end.
Definition value1_engine : engine := match value1 with Ok (_, e) => e | Err _ => empty end.

End Demo.

(* ------------------------------------------------------------------ *)
(** ** Facts about the helpers *)

Ltac peel H x :=
  match type of H with
  | rbind ?m _ = Ok _ =>
      let E := fresh "E" in destruct m as [x|] eqn:E; cbn [rbind] in H; [ | discriminate H ]
  end.

Lemma setattr_arr (e : engine) n xs e' :
  setattr e n (VArr xs) = Ok e' -> e' = <[n := VArr xs]> e.
Proof.
  unfold setattr. intros H. peel H ms.
  destruct (owner n ms).
  - peel H fs. discriminate H.
  - destruct (read_only n); [discriminate H | now injection H].
Qed.

Lemma lookup_dict_insert_ne (e : engine) (k n : string) v :
  k <> n -> <[k := v]> e !! n = e !! n.
Proof. intros H. now apply lookup_insert_ne. Qed.

Lemma models_of_insert (e : engine) k v :
  k <> "models" -> models_of (<[k := v]> e) = models_of e.
Proof. intros H. unfold models_of. now rewrite lookup_dict_insert_ne. Qed.

Lemma getattr_plain_insert (e : engine) k v n :
  k <> "models" -> k <> n -> getattr_plain (<[k := v]> e) n = getattr_plain e n.
Proof.
  intros H1 H2. unfold getattr_plain, getattr_fallback.
  rewrite lookup_dict_insert_ne, models_of_insert; auto.
Qed.

Lemma getattr_insert (e : engine) k v n :
  k <> "models" -> k <> n -> (forall fld, prop_field n = Some fld -> k <> fld) ->
  getattr (<[k := v]> e) n = getattr e n.
Proof.
  intros H1 H2 H3. unfold getattr, getattr_fallback.
  destruct (prop_field n) as [fld|] eqn:Ep.
  - rewrite getattr_plain_insert, models_of_insert; eauto.
  - now rewrite getattr_plain_insert.
Qed.

Lemma getattr_prop_insert (e : engine) n fld v :
  prop_field n = Some fld -> getattr (<[fld := v]> e) n = Ok v.
Proof.
  intros H. unfold getattr, getattr_plain. rewrite H. now rewrite lookup_insert_eq.
Qed.

Lemma getattr_num_insert (e : engine) k v n :
  k <> "models" -> k <> n -> (forall fld, prop_field n = Some fld -> k <> fld) ->
  getattr_num (<[k := v]> e) n = getattr_num e n.
Proof. intros. unfold getattr_num. now rewrite getattr_insert. Qed.

Lemma getattr_arr_insert (e : engine) k v n :
  k <> "models" -> k <> n -> (forall fld, prop_field n = Some fld -> k <> fld) ->
  getattr_arr (<[k := v]> e) n = getattr_arr e n.
Proof. intros. unfold getattr_arr. now rewrite getattr_insert. Qed.

Lemma getattr_arr_prop_insert (e : engine) n fld xs :
  prop_field n = Some fld -> getattr_arr (<[fld := VArr xs]> e) n = Ok xs.
Proof. intros H. unfold getattr_arr. now rewrite (getattr_prop_insert _ _ _ _ H). Qed.

Lemma getattr_num_prop_insert (e : engine) n fld x :
  prop_field n = Some fld -> getattr_num (<[fld := VNum x]> e) n = Ok x.
Proof. intros H. unfold getattr_num. now rewrite (getattr_prop_insert _ _ _ _ H). Qed.

Lemma names_free_insert (e : engine) k v :
  k <> "models" -> names_free (<[k := v]> e) = names_free e.
Proof. intros H. unfold names_free. now rewrite models_of_insert. Qed.

Lemma setattr_derived (e : engine) n v :
  names_free e = true -> In n derived_names -> setattr e n v = Ok (<[n := v]> e).
Proof.
  unfold names_free, setattr. destruct (models_of e) as [ms|]; [|discriminate].
  intros H Hn. cbn [rbind]. rewrite forallb_forall in H. specialize (H n Hn).
  destruct (owner n ms); [discriminate|].
  simpl in Hn. repeat destruct Hn as [<-|Hn]; try reflexivity. contradiction.
Qed.

Lemma flags_of_insert (e : engine) k v :
  k <> "models" -> k <> "_sync" -> flags_of (<[k := v]> e) = flags_of e.
Proof. intros. unfold flags_of. now rewrite getattr_plain_insert. Qed.

Lemma flags_of_reset (e : engine) fs :
  flags_of (<["_sync" := VFlags fs]> e) = Ok fs.
Proof. unfold flags_of, getattr_plain. now rewrite lookup_insert_eq. Qed.

Lemma assoc_reset (k : string) (fs : list (string * bool)) b :
  assoc k fs = Some b -> assoc k (map (fun kv => (kv.1, false)) fs) = Some false.
Proof.
  induction fs as [|[k' b'] fs IH]; simpl; [discriminate|].
  destruct (String.eqb k k'); auto.
Qed.

Lemma map_reset_idem (fs : list (string * bool)) :
  map (fun kv => (kv.1, false)) (map (fun kv => (kv.1, false)) fs) =
  map (fun kv => (kv.1, false)) fs.
Proof. rewrite map_map. reflexivity. Qed.

Lemma nth_zip_with (op : fl -> fl -> fl) xs ys i :
  length xs = length ys -> i < length xs ->
  nth i (zip_with op xs ys) NaN = op (nth i xs NaN) (nth i ys NaN).
Proof.
  revert ys i. induction xs as [|x xs IH]; intros [|y ys] [|i] Hl Hi; simpl in *; try lia; auto.
  apply IH; lia.
Qed.

Lemma nth_map_fl (g : fl -> fl) xs i :
  i < length xs -> nth i (map g xs) NaN = g (nth i xs NaN).
Proof.
  revert i. induction xs as [|x xs IH]; intros [|i] Hi; simpl in *; try lia; auto.
  apply IH; lia.
Qed.

Lemma bcast_len_r op xs ys zs :
  bcast op xs ys = Ok zs -> length zs = length ys \/ length ys = 1.
Proof.
  unfold bcast. destruct (Nat.eqb_spec (length xs) (length ys)) as [Hl|Hl].
  - intros [= <-]. left. rewrite length_zip_with. lia.
  - destruct xs as [|x [|x' xs]]; destruct ys as [|y [|y' ys]]; intros H;
      try discriminate H; injection H as <-; simpl; rewrite ?length_map; lia.
Qed.

Lemma bcast_len_l op xs ys zs :
  bcast op xs ys = Ok zs -> length zs = length xs \/ length xs = 1.
Proof.
  unfold bcast. destruct (Nat.eqb_spec (length xs) (length ys)) as [Hl|Hl].
  - intros [= <-]. left. rewrite length_zip_with. lia.
  - destruct xs as [|x [|x' xs]]; destruct ys as [|y [|y' ys]]; intros H;
      try discriminate H; injection H as <-; simpl; rewrite ?length_map; lia.
Qed.

Lemma bcast_at op xs ys zs :
  bcast op xs ys = Ok zs ->
  forall i, i < length zs \/ length zs = 1 ->
  at_bcast zs i = op (at_bcast xs i) (at_bcast ys i).
Proof.
  unfold bcast, at_bcast. destruct (Nat.eqb_spec (length xs) (length ys)) as [Hl|Hl].
  - intros [= <-] i Hi. rewrite length_zip_with, <- Hl, Nat.min_id in *.
    destruct (Nat.eqb_spec (length xs) 1) as [H1|H1].
    + apply nth_zip_with; lia.
    + apply nth_zip_with; lia.
  - destruct xs as [|x [|x' xs]].
    + destruct ys as [|y [|y' ys]]; intros H; try discriminate H.
      injection H as <-. simpl. lia.
    + intros H. injection H as <-. intros i Hi. rewrite length_map in *. simpl in Hl.
      destruct (Nat.eqb_spec (length ys) 1) as [H1|H1]; [lia|].
      apply nth_map_fl. lia.
    + destruct ys as [|y [|y' ys]]; intros H; try discriminate H.
      injection H as <-. intros i Hi. simpl in *. rewrite length_map in Hi.
      destruct i as [|[|i]]; auto. apply nth_map_fl. lia.
Qed.

Lemma at_bcast_nth xs i : i < length xs -> nth i xs NaN = at_bcast xs i.
Proof.
  unfold at_bcast. intros H. destruct (Nat.eqb_spec (length xs) 1); auto.
  now replace i with 0 by lia.
Qed.

Lemma fmul_nan_r r : fmul r NaN = NaN.
Proof. now destruct r. Qed.

Lemma nth_map_fmul r (l : list fl) k : nth k (map (fmul r) l) NaN = fmul r (nth k l NaN).
Proof.
  revert k. induction l as [|x l IH]; intros [|k]; simpl; auto using fmul_nan_r.
Qed.

Lemma at_bcast_map_fmul r u i : at_bcast (map (fmul r) u) i = fmul r (at_bcast u i).
Proof.
  unfold at_bcast. rewrite length_map.
  destruct (Nat.eqb (length u) 1); apply nth_map_fmul.
Qed.

Lemma fle_fin a b : (a <= b)%Q -> fle (Fin a) (Fin b) = true.
Proof.
  intros H. unfold fle, flt, feq, qlt. destruct (Qle_bool b a) eqn:E; simpl; auto.
  apply Qeq_bool_iff. apply Qle_bool_imp_le in E. apply Qle_antisym; auto.
Qed.

(** Range of one mixture probability [(r u) / (r u + b)] for finite
    non-negative inputs with a positive background below [2^1023]. *)
Lemma mixture_bounds r u b :
  fin_nonneg r && fin_nonneg u && fin_nonneg b = true ->
  (flt (Fin 0) b = true -> flt (fadd (fmul r u) b) (Fin dbl_bound) = true ->
     fle (Fin 0) (fdiv (fmul r u) (fadd (fmul r u) b)) = true /\
     fle (fdiv (fmul r u) (fadd (fmul r u) b)) (Fin 1) = true) /\
  (feq (fadd (fmul r u) b) (Fin 0) = true -> fdiv (fmul r u) (fadd (fmul r u) b) = NaN).
Proof.
  destruct r as [qr| | |]; destruct u as [qu| | |]; destruct b as [qb| | |];
    intros H; simpl in H; rewrite ?andb_false_r in H; try discriminate H.
  simpl. apply andb_prop in H as [H Hb]. apply andb_prop in H as [Hr Hu].
  apply Qle_bool_imp_le in Hr, Hu, Hb.
  assert (Hn : (0 <= qr * qu)%Q) by (apply Qmult_le_0_compat; auto).
  split.
  - unfold qlt. intros Hb0 _. apply negb_true_iff in Hb0.
    assert (Hb0' : (0 < qb)%Q).
    { apply Qnot_le_lt. intros C. apply Qle_bool_iff in C. congruence. }
    assert (Hd' : (0 < qr * qu + qb)%Q).
    { apply Qlt_le_trans with qb; [exact Hb0'|].
      rewrite <- (Qplus_0_l qb) at 1. apply Qplus_le_compat; [exact Hn | apply Qle_refl]. }
    destruct (Qeq_bool (qr * qu + qb) 0) eqn:Ez.
    { apply Qeq_bool_iff in Ez. rewrite Ez in Hd'. discriminate Hd'. }
    split; apply fle_fin.
    + apply Qle_shift_div_l; auto. rewrite Qmult_0_l. auto.
    + apply Qle_shift_div_r; auto. rewrite Qmult_1_l.
      rewrite <- (Qplus_0_r (qr * qu)) at 1. apply Qplus_le_compat; [apply Qle_refl | auto].
  - intros Hz. rewrite Hz. apply Qeq_bool_iff in Hz.
    assert (Hn0 : (qr * qu == 0)%Q).
    { apply Qle_antisym; auto. rewrite <- Hz.
      rewrite <- (Qplus_0_r (qr * qu)) at 1. apply Qplus_le_compat; [apply Qle_refl | auto]. }
    apply Qeq_bool_iff in Hn0. now rewrite Hn0.
Qed.

Ltac peel_all H := repeat (let x := fresh "x" in peel H x).

Ltac key_ne :=
  first [ discriminate
        | let fld := fresh "fld" in let Hf := fresh "Hf" in
          intros fld Hf; vm_compute in Hf;
          first [ discriminate Hf | injection Hf as <-; discriminate ] ].

Ltac in_derived := simpl; repeat first [left; reflexivity | right].

Ltac free_side := rewrite ?names_free_insert by discriminate; first [assumption | in_derived].

Ltac norm_in H :=
  repeat first [ rewrite getattr_arr_insert in H by key_ne
               | rewrite getattr_num_insert in H by key_ne
               | rewrite getattr_insert in H by key_ne
               | rewrite getattr_arr_prop_insert in H by reflexivity ].

Ltac norm_all :=
  repeat first
    [ match goal with E : Ok _ = Ok _ |- _ => injection E; clear E; intros; subst end
    | match goal with E : ?a = Ok _, E' : ?a = Ok _ |- _ => rewrite E in E' end
    | match goal with E : _ = Ok _ |- _ => progress norm_in E end ].

Ltac subst_setattrs :=
  repeat match goal with
  | E : setattr ?e ?n ?v = Ok ?x |- _ =>
      rewrite setattr_derived in E by free_side; injection E; clear E; intros; subst x
  end.

Ltac crunch :=
  repeat first [ progress cbn [rbind]
               | rewrite getattr_arr_prop_insert by reflexivity
               | rewrite getattr_arr_insert by key_ne
               | rewrite getattr_num_insert by key_ne
               | rewrite getattr_insert by key_ne
               | rewrite setattr_derived by free_side
               | match goal with E : ?a = Ok _ |- context [?a] => rewrite E end ].

Ltac map_ext :=
  f_equal; apply map_eq; intros ?k; rewrite !lookup_insert;
  repeat case_decide; subst; try congruence.

(* ------------------------------------------------------------------ *)
(** ** Properties of the engine *)

Lemma assoc_set_ne {V} (n name : string) (x : V) ps :
  n <> name -> assoc n (assoc_set name x ps) = assoc n ps.
Proof.
  intros Hn. induction ps as [|[k v] ps IH]; simpl.
  - destruct (String.eqb_spec n name); congruence.
  - destruct (String.eqb_spec name k) as [->|Hk]; simpl.
    + destruct (String.eqb_spec n k); congruence.
    + destruct (String.eqb n k); auto.
Qed.

Lemma find_param_set n name key x ms :
  n <> name -> find_param n (model_set ms key name x) = find_param n ms.
Proof.
  intros Hn. induction ms as [|[k ps] ms IH]; simpl; auto.
  destruct (String.eqb k key); simpl; rewrite ?assoc_set_ne by exact Hn;
    destruct (assoc n ps); auto.
Qed.

Lemma owner_set n name key x ms :
  n <> name -> owner n (model_set ms key name x) = owner n ms.
Proof.
  intros Hn. induction ms as [|[k ps] ms IH]; simpl; auto.
  destruct (String.eqb k key); simpl; unfold mem_key; rewrite ?assoc_set_ne by exact Hn;
    destruct (assoc n ps); auto.
Qed.

Lemma getattr_prop_lookup (e : engine) n fld v :
  prop_field n = Some fld -> e !! fld = Some v -> getattr e n = Ok v.
Proof. intros H1 H2. unfold getattr, getattr_plain. now rewrite H1, H2. Qed.

Lemma fmul_neg1 s : fmul (Fin (-1)) s = fneg s.
Proof. destruct s as [[[|n|n] d]| | |]; reflexivity. Qed.

(** The state [__setattr__] leaves when a sub-model owns the name. *)
Lemma setattr_owned (e e' : engine) ms key name x fs :
  models_of e = Ok ms -> owner name ms = Some key -> flags_of e = Ok fs ->
  setattr e name (VNum x) = Ok e' ->
  e' = <["models" := VModels (model_set ms key name x)]>
         (<["_sync" := VFlags (assoc_set key true fs)]> e).
Proof.
  unfold setattr. intros Hm Ho Hf H. rewrite Hm in H. cbn [rbind] in H.
  rewrite Ho, Hf in H. cbn in H. now injection H as <-.
Qed.

Section Owned.

Context (e : engine) (ms : list (string * params)) (key name : string) (x : fl).
Context (fs : list (string * bool)).
Hypothesis Hms : models_of e = Ok ms.

Local Abbreviation W := (<["models" := VModels (model_set ms key name x)]>
                          (<["_sync" := VFlags (assoc_set key true fs)]> e)).

Lemma models_of_owned : models_of W = Ok (model_set ms key name x).
Proof. unfold models_of. now rewrite lookup_insert_eq. Qed.

Lemma flags_of_owned : flags_of W = Ok (assoc_set key true fs).
Proof.
  unfold flags_of, getattr_plain.
  rewrite lookup_insert_ne by discriminate. now rewrite lookup_insert_eq.
Qed.

Lemma getattr_fallback_owned n :
  n <> name -> getattr_fallback W n = getattr_fallback e n.
Proof.
  intros Hn. unfold getattr_fallback. rewrite models_of_owned, Hms. cbn [rbind].
  now rewrite find_param_set.
Qed.

Lemma getattr_plain_owned n :
  n <> "models" -> n <> "_sync" -> n <> name -> getattr_plain W n = getattr_plain e n.
Proof.
  intros H1 H2 H3. unfold getattr_plain.
  rewrite !lookup_insert_ne by congruence.
  destruct (e !! n); auto. now apply getattr_fallback_owned.
Qed.

Lemma getattr_owned n :
  n <> "models" -> n <> "_sync" -> n <> name ->
  (forall fld, prop_field n = Some fld -> fld <> "models" /\ fld <> "_sync" /\ fld <> name) ->
  getattr W n = getattr e n.
Proof.
  intros H1 H2 H3 H4. unfold getattr. destruct (prop_field n) as [fld|] eqn:Ep.
  - destruct (H4 fld eq_refl) as (G1 & G2 & G3).
    rewrite getattr_plain_owned, getattr_fallback_owned; auto.
  - now apply getattr_plain_owned.
Qed.

End Owned.

Lemma names_free_owned (e : engine) ms key x fs :
  models_of e = Ok ms ->
  names_free (<["models" := VModels (model_set ms key "richness" x)]>
                (<["_sync" := VFlags (assoc_set key true fs)]> e)) = names_free e.
Proof.
  intros Hm. unfold names_free. rewrite (models_of_owned e), Hm. simpl.
  rewrite !owner_set by discriminate. reflexivity.
Qed.

Lemma flag_eq (a b : engine) k : flags_of a = flags_of b -> flag a k = flag b k.
Proof. unfold flag. now intros ->. Qed.

Lemma qlt_iff a b : qlt a b = true <-> (a < b)%Q.
Proof.
  unfold qlt. rewrite negb_true_iff. split; intros H.
  - apply Qnot_le_lt. intros H'. apply Qle_bool_iff in H'. congruence.
  - destruct (Qle_bool b a) eqn:E; auto. apply Qle_bool_iff in E.
    exfalso. exact (Qlt_not_le _ _ H E).
Qed.

Lemma fle_Fin_iff a b : fle (Fin a) (Fin b) = true <-> (a <= b)%Q.
Proof.
  split; [|apply fle_fin]. unfold fle, flt, feq. intros H.
  apply orb_true_iff in H as [H|H].
  - apply qlt_iff in H. now apply Qlt_le_weak.
  - apply Qeq_bool_iff in H. apply Qle_lteq. now right.
Qed.

Lemma fle_refl x : isnan x = false -> fle x x = true.
Proof. destruct x; simpl; try reflexivity; try discriminate. intros _. apply fle_fin, Qle_refl. Qed.

Lemma not_flt_fle a b : isnan a = false -> isnan b = false -> flt a b = false -> fle b a = true.
Proof.
  destruct a as [a| | |], b as [b| | |]; simpl; intros; try discriminate; try reflexivity.
  apply fle_fin. apply Qnot_lt_le. intros Hq. apply qlt_iff in Hq. congruence.
Qed.

Lemma fle_flt_trans y b x : fle y b = true -> flt b x = true -> fle y x = true.
Proof.
  destruct y as [y| | |], b as [b| | |], x as [x| | |]; simpl; intros H1 H2;
    try discriminate; try reflexivity.
  apply fle_Fin_iff in H1. apply qlt_iff in H2. apply fle_fin.
  apply Qlt_le_weak. exact (Qle_lt_trans _ _ _ H1 H2).
Qed.

Lemma argmax_from_spec xs : forall pre bi bv,
  Forall (fun y => isnan y = false) (pre ++ xs)%list ->
  bi < length pre -> nth bi pre NaN = bv -> (forall y, In y pre -> fle y bv = true) ->
  argmax_from xs (length pre) bi bv < length (pre ++ xs)%list /\
  forall y, In y (pre ++ xs)%list -> fle y (nth (argmax_from xs (length pre) bi bv) (pre ++ xs)%list NaN) = true.
Proof.
  induction xs as [|x xs IH]; intros pre bi bv Hn Hbi Hbv Hle; simpl.
  - rewrite app_nil_r. split; [exact Hbi|]. rewrite Hbv. exact Hle.
  - rewrite Forall_forall in Hn.
    assert (Hbvn : isnan bv = false).
    { apply Hn. rewrite list_elem_of_In. apply in_or_app. left. rewrite <- Hbv. apply nth_In. exact Hbi. }
    assert (Hxn : isnan x = false).
    { apply Hn. rewrite list_elem_of_In. apply in_or_app. right. now left. }
    rewrite Hbvn, Hxn. simpl.
    replace (pre ++ x :: xs)%list with ((pre ++ [x]) ++ xs)%list by now rewrite <- app_assoc.
    replace (S (length pre)) with (length (pre ++ [x])%list) by (rewrite length_app; simpl; lia).
    assert (Hn' : Forall (fun y => isnan y = false) ((pre ++ [x]) ++ xs)%list).
    { apply Forall_forall. intros y Hy. apply Hn. rewrite <- app_assoc in Hy. exact Hy. }
    destruct (flt bv x) eqn:Ef.
    + apply IH; auto.
      * rewrite length_app. simpl. lia.
      * rewrite app_nth2 by lia. now rewrite Nat.sub_diag.
      * intros y Hy. apply in_app_or in Hy as [Hy|[<-|[]]].
        -- exact (fle_flt_trans _ _ _ (Hle y Hy) Ef).
        -- now apply fle_refl.
    + apply IH; auto.
      * rewrite length_app. simpl. lia.
      * now rewrite app_nth1 by lia.
      * intros y Hy. apply in_app_or in Hy as [Hy|[<-|[]]]; auto.
        now apply not_flt_fle.
Qed.

Lemma np_argmax_spec xs k :
  np_argmax xs = Ok k -> k < length xs /\
  (Forall (fun y => isnan y = false) xs -> forall y, In y xs -> fle y (nth k xs NaN) = true).
Proof.
  destruct xs as [|x xs]; simpl; [discriminate|]. intros [= <-].
  split.
  - assert (Hlt : forall ys i bi bv, bi < i -> argmax_from ys i bi bv < i + length ys).
    { induction ys as [|y ys IH]; intros i bi bv Hi; simpl; [lia|].
      destruct (isnan bv); [lia|].
      destruct (isnan y || flt bv y).
      - specialize (IH (S i) i y ltac:(lia)). lia.
      - specialize (IH (S i) bi bv ltac:(lia)). lia. }
    specialize (Hlt xs 1 0 x). lia.
  - intros Hn. pose proof (argmax_from_spec xs [x] 0 x Hn) as Hs. simpl in Hs.
    apply Hs; auto. intros y [<-|[]]. apply fle_refl.
    rewrite Forall_forall in Hn. apply Hn. rewrite list_elem_of_In. now left.
Qed.

Lemma nth_in_zip (xs ys : list fl) i :
  length xs = length ys -> i < length xs -> In (nth i xs NaN, nth i ys NaN) (zip xs ys).
Proof.
  revert ys i. induction xs as [|x xs IH]; intros [|y ys] [|i] Hl Hi; simpl in *; try lia; auto.
  right. apply IH; lia.
Qed.

Lemma bindM_ok {A B} (m : M A) (k : A -> M B) s r :
  bindM m k s = Ok r -> exists a s', m s = Ok (a, s') /\ k a s' = Ok r.
Proof. unfold bindM. destruct (m s) as [[a s']|x]; [eauto | discriminate]. Qed.

Lemma liftR_ok {A} (m : result A) s a s' : liftR m s = Ok (a, s') -> m = Ok a /\ s' = s.
Proof. unfold liftR. destruct m; simpl; [intros [= -> ->]; auto | discriminate]. Qed.

Lemma retM_ok {A} (a b : A) s s' : retM a s = Ok (b, s') -> a = b /\ s' = s.
Proof. unfold retM. now intros [= -> ->]. Qed.

(** Claim C5 (amended). A name no sub-model owns is handled by
    [object.__setattr__]: it raises [AttributeError] exactly for the
    read-only properties ([kernel], [isochrone], [params], [pixel], [u],
    [b], [p], [f]); any other name, known or not, is stored on the engine. *)
Theorem setattr_unowned (e : engine) ms n v :
  models_of e = Ok ms -> owner n ms = None ->
  setattr e n v = if read_only n then Err AttributeError else Ok (<[n := v]> e).
Proof. intros Hm Ho. unfold setattr. rewrite Hm. cbn [rbind]. now rewrite Ho. Qed.

Lemma linspace_len start stop n :
  (0 <= n)%Z -> exists g, linspace start stop n = Ok g /\ length g = Z.to_nat n.
Proof.
  intros Hn. unfold linspace. destruct (Z.ltb_spec n 0) as [Hlt|_]; [lia|].
  eexists. split; [reflexivity|].
  destruct (Z.ltb_spec 1 n) as [H1|H1].
  - rewrite length_app, length_take. simpl.
    destruct (Z.ltb_spec 0 (n - 1)) as [H0|H0];
      [destruct (feq _ (Fin 0))|]; rewrite !length_map, length_seq; lia.
  - destruct (Z.ltb_spec 0 (n - 1)) as [H0|H0];
      [destruct (feq _ (Fin 0))|]; rewrite !length_map, length_seq; lia.
Qed.

Lemma linspace_hd a b n g :
  (1 <= n)%Z -> linspace (Fin a) (Fin b) n = Ok g -> exists q, hd NaN g = Fin q /\ (q == a)%Q.
Proof.
  intros Hn. unfold linspace. destruct (Z.ltb_spec n 0) as [Hlt|_]; [lia|].
  intros [= <-].
  assert (Hs : exists m, Z.to_nat n = S m) by (exists (Z.to_nat n - 1); lia).
  destruct Hs as [m Hm]. rewrite Hm. simpl seq.
  assert (Hhd : forall ys : list fl, (exists q, hd NaN ys = Fin q /\ (q == a)%Q) ->
            exists q, hd NaN (if (1 <? n)%Z then (take (S m - 1) ys ++ [Fin b])%list else ys)
                      = Fin q /\ (q == a)%Q).
  { intros ys Hy. destruct (Z.ltb_spec 1 n) as [H1|H1]; [|exact Hy].
    destruct m as [|m]; [lia|]. destruct ys as [|y ys]; [destruct Hy as (q & Hq & _); discriminate|].
    exact Hy. }
  apply Hhd.
  destruct (Z.ltb_spec 0 (n - 1)) as [H0|H0].
  - assert (Hd : Qeq_bool (inject_Z (n - 1)) 0 = false).
    { destruct (Qeq_bool (inject_Z (n - 1)) 0) eqn:E; auto. apply Qeq_bool_iff in E.
      unfold Qeq in E. simpl in E. lia. }
    simpl. rewrite Hd. destruct (feq _ (Fin 0)); simpl; rewrite ?Hd; eexists; split; try reflexivity.
    + unfold Qdiv. ring.
    + ring.
  - simpl. eexists. split; [reflexivity|]. ring.
Qed.

Section Proofs.

Context {Obj Pix Pt : Type}.
Context (catalog : list Obj) (pixels_interior : list Pix).
Context (pix_lonlat : Pix -> Pt) (obj_lonlat : Obj -> Pt) (area_pixel : fl).
Context (kernel_pdf : params -> Pt -> fl) (isochrone_pdf : params -> fl -> Obj -> fl).
Context (isochrone_observableFraction : params -> fl -> list fl).
Context (ln_pos : Q -> Q).

Local Abbreviation sync := (sync_params Obj Pix Pt catalog pixels_interior pix_lonlat obj_lonlat
                          area_pixel kernel_pdf isochrone_pdf isochrone_observableFraction).
Local Abbreviation scolor := (sync_color Obj catalog isochrone_pdf isochrone_observableFraction).
Local Abbreviation sspatial := (sync_spatial Obj Pix Pt catalog pixels_interior pix_lonlat
                              obj_lonlat kernel_pdf).

Lemma combine_p (e e' : engine) :
  combine area_pixel e = Ok e' ->
  exists ex r u b den p,
    getattr_num ex "richness" = Ok r /\ getattr_arr ex "u" = Ok u /\
    getattr_arr ex "b" = Ok b /\
    bcast fadd (map (fmul r) u) b = Ok den /\ bcast fdiv (map (fmul r) u) den = Ok p /\
    e' = <["_p" := VArr p]> ex.
Proof.
  unfold combine. intros H. peel_all H.
  apply setattr_arr in H. eauto 12.
Qed.

Lemma sync_split (e e1 : engine) :
  sync e = Ok e1 ->
  exists e2 e3 fs, combine area_pixel e2 = Ok e3 /\ flags_of e3 = Ok fs /\
    e1 = <["_sync" := VFlags (map (fun kv => (kv.1, false)) fs)]> e3.
Proof.
  unfold sync_params, reset_sync. intros H. peel_all H. injection H as <-.
  do 3 eexists. split; [eassumption | split; [eassumption | reflexivity]].
Qed.

(** Claim C1 (amended). After a successful [sync_params], every entry of
    [p] is the numpy value of [(richness * u_i) / (richness * u_i + b_i)]
    (with broadcasting of [u] and [b]). When [richness], [u_i] and [b_i] are
    finite and non-negative, [b_i > 0] and [richness * u_i + b_i < 2^1023],
    then [0 <= p_i <= 1]; if the denominator is zero, [p_i] is NaN.
    The two side conditions are what the bound needs with doubles, whose
    rounding is monotone: [b_i > 0] keeps the rounded denominator positive
    (an underflowing [richness * u_i] with [b_i = 0] gives [0/0]), and the
    [2^1023] bound keeps [richness * u_i] and the sum finite
    ([richness = 1e308], [u_i = 10] gives [inf/inf] = NaN). The exact
    arithmetic of [fl] needs neither, as it neither rounds nor overflows. *)
Theorem sync_params_mixture (e e1 : engine) :
  sync e = Ok e1 ->
  exists r u b p,
    getattr_num e1 "richness" = Ok r /\ getattr_arr e1 "u" = Ok u /\
    getattr_arr e1 "b" = Ok b /\ getattr_arr e1 "p" = Ok p /\
    forall i, i < length p ->
      nth i p NaN = fdiv (fmul r (at_bcast u i)) (fadd (fmul r (at_bcast u i)) (at_bcast b i)) /\
      (fin_nonneg r && fin_nonneg (at_bcast u i) && fin_nonneg (at_bcast b i) = true ->
        (flt (Fin 0) (at_bcast b i) = true ->
         flt (fadd (fmul r (at_bcast u i)) (at_bcast b i)) (Fin dbl_bound) = true ->
           fle (Fin 0) (nth i p NaN) = true /\ fle (nth i p NaN) (Fin 1) = true) /\
        (feq (fadd (fmul r (at_bcast u i)) (at_bcast b i)) (Fin 0) = true ->
           nth i p NaN = NaN)).
Proof.
  intros H. destruct (sync_split _ _ H) as (e2 & e3 & fs & Hc & Hf & ->).
  destruct (combine_p _ _ Hc) as (ex & r & u & b & den & p & Hr & Hu & Hb & Hden & Hp & ->).
  exists r, u, b, p. unfold getattr_num, getattr_arr in *.
  rewrite !getattr_insert by key_ne.
  split; [exact Hr|]. split; [exact Hu|]. split; [exact Hb|].
  split; [now rewrite getattr_prop_insert|].
  intros i Hi.
  assert (Hat : nth i p NaN =
          fdiv (fmul r (at_bcast u i)) (fadd (fmul r (at_bcast u i)) (at_bcast b i))).
  { rewrite at_bcast_nth by exact Hi.
    rewrite (bcast_at _ _ _ _ Hp i) by lia.
    destruct (bcast_len_r _ _ _ _ Hp) as [Hl|Hl].
    - rewrite (bcast_at _ _ _ _ Hden i) by lia. now rewrite !at_bcast_map_fmul.
    - rewrite (bcast_at _ _ _ _ Hden i) by lia. now rewrite !at_bcast_map_fmul. }
  split; [exact Hat|]. rewrite Hat. apply mixture_bounds.
Qed.

Lemma combine_idem (e2 e3 : engine) v :
  names_free e2 = true -> combine area_pixel e2 = Ok e3 ->
  combine area_pixel (<["_sync" := v]> e3) = Ok (<["_sync" := v]> e3).
Proof.
  intros Hnf H. unfold combine in H. peel_all H.
  apply setattr_arr in H. subst e3. subst_setattrs.
  norm_all.
  destruct x8.
  - peel_all E9. subst_setattrs.
    norm_all.
    unfold combine. crunch. map_ext.
  - injection E9; intros; subst x9. norm_all. unfold combine. crunch. map_ext.
Qed.

Lemma combine_frame (e e' : engine) :
  names_free e = true -> combine area_pixel e = Ok e' ->
  names_free e' = true /\ flags_of e' = flags_of e /\ models_of e' = models_of e.
Proof.
  intros Hnf H. unfold combine in H. peel_all H.
  apply setattr_arr in H. subst e'. subst_setattrs. norm_all.
  destruct x8.
  - peel_all E9. subst_setattrs.
    rewrite !names_free_insert, !flags_of_insert, !models_of_insert by discriminate. auto.
  - injection E9; intros; subst x9.
    rewrite !names_free_insert, !flags_of_insert, !models_of_insert by discriminate. auto.
Qed.

Lemma sync_color_frame (e e' : engine) :
  names_free e = true -> scolor e = Ok e' ->
  names_free e' = true /\ flags_of e' = flags_of e /\ models_of e' = models_of e /\ exists c, flag e "color" = Ok c.
Proof.
  unfold sync_color. intros Hnf H. peel H c. destruct c.
  - peel_all H. subst_setattrs.
    rewrite !names_free_insert, !flags_of_insert, !models_of_insert by discriminate. eauto.
  - injection H as <-. eauto.
Qed.

Lemma calc_signal_spatial_frame (e : engine) us e' :
  names_free e = true -> calc_signal_spatial Obj Pix Pt catalog pixels_interior pix_lonlat
                           obj_lonlat kernel_pdf e = Ok (us, e') ->
  names_free e' = true /\ flags_of e' = flags_of e /\ models_of e' = models_of e.
Proof.
  unfold calc_signal_spatial. intros Hnf H. peel_all H. subst_setattrs.
  injection H as _ <-. rewrite !names_free_insert, !flags_of_insert, !models_of_insert by discriminate. auto.
Qed.

Lemma sync_spatial_frame (e e' : engine) :
  names_free e = true -> sspatial e = Ok e' ->
  names_free e' = true /\ flags_of e' = flags_of e /\ models_of e' = models_of e /\ exists c, flag e "spatial" = Ok c.
Proof.
  unfold sync_spatial. intros Hnf H. peel H c. destruct c.
  - peel H r. destruct r as [us e2]. cbn in H.
    destruct (calc_signal_spatial_frame _ _ _ Hnf E0) as (Hnf2 & Hf2 & Hm2).
    subst_setattrs. rewrite !names_free_insert, !flags_of_insert, !models_of_insert by discriminate.
    rewrite Hf2, Hm2. eauto.
  - injection H as <-. eauto.
Qed.

Lemma flag_reset (e e0 : engine) fs k b :
  flags_of e0 = Ok fs -> flag e0 k = Ok b ->
  flag (<["_sync" := VFlags (map (fun kv => (kv.1, false)) fs)]> e) k = Ok false.
Proof.
  unfold flag. intros Hf Hk. rewrite Hf in Hk. cbn [rbind] in Hk.
  rewrite flags_of_reset. cbn [rbind].
  destruct (assoc k fs) as [b'|] eqn:Ea; [|discriminate].
  now rewrite (assoc_reset _ _ _ Ea).
Qed.

(** Claim C4. For an engine in which no sub-model has a parameter named like
    one of the attributes [sync_params] assigns ([names_free]), a second
    [sync_params] right after a successful one returns the very same state
    (so [u], [b], [p], [f] and everything else are unchanged), and after the
    call every dirty flag in [_sync] is [False]. *)
Theorem sync_params_idempotent (e e1 : engine) :
  names_free e = true -> sync e = Ok e1 ->
  sync e1 = Ok e1 /\ exists fs, flags_of e1 = Ok fs /\ Forall (fun kv => kv.2 = false) fs.
Proof.
  intros Hnf H. unfold sync_params, reset_sync in H.
  peel H x. peel H e2. peel H e3. peel H e4. peel H fs. injection H as <-.
  destruct (sync_color_frame _ _ Hnf E0) as (Hnf2 & Hf2 & _ & c & Hc).
  destruct (sync_spatial_frame _ _ Hnf2 E1) as (Hnf3 & Hf3 & _ & d & Hd).
  destruct (combine_frame _ _ Hnf3 E2) as (Hnf4 & Hf4 & _).
  assert (Hfs : flags_of e = Ok fs) by congruence.
  split.
  - unfold sync_params.
    rewrite (flag_reset _ _ _ "richness" _ Hfs E). cbn [rbind].
    unfold sync_color. rewrite (flag_reset _ _ _ "color" _ Hfs Hc). cbn [rbind].
    unfold sync_spatial. rewrite (flag_reset _ _ _ "spatial" _ (eq_trans Hf2 Hfs) Hd).
    cbn [rbind].
    rewrite (combine_idem _ _ _ Hnf3 E2). cbn [rbind].
    unfold reset_sync. rewrite flags_of_reset. cbn [rbind].
    rewrite map_reset_idem, insert_insert. reflexivity.
  - eexists. split; [apply flags_of_reset|].
    apply Forall_forall. intros kv Hkv. rewrite list_elem_of_In, in_map_iff in Hkv.
    destruct Hkv as (kv' & <- & _). reflexivity.
Qed.

Lemma sync_split_nf (e e1 : engine) :
  names_free e = true -> sync e = Ok e1 ->
  exists e2 e3 fs, names_free e2 = true /\ flags_of e2 = flags_of e /\
    models_of e2 = models_of e /\ combine area_pixel e2 = Ok e3 /\ flags_of e3 = Ok fs /\
    e1 = <["_sync" := VFlags (map (fun kv => (kv.1, false)) fs)]> e3 /\
    (exists c, flag e "color" = Ok c) /\ (exists d, flag e "spatial" = Ok d).
Proof.
  intros Hnf H. unfold sync_params, reset_sync in H.
  peel H x. peel H e2. peel H e3. peel H e4. peel H fs. injection H as <-.
  destruct (sync_color_frame _ _ Hnf E0) as (Hnf2 & Hf2 & Hm2 & c & Hc).
  destruct (sync_spatial_frame _ _ Hnf2 E1) as (Hnf3 & Hf3 & Hm3 & d & Hd).
  exists e3, e4, fs. repeat split; auto; try congruence.
  - eauto.
  - exists d. rewrite <- Hd. apply flag_eq. congruence.
Qed.

Lemma combine_f (e e' : engine) :
  names_free e = true -> combine area_pixel e = Ok e' ->
  exists fv, e' !! "_f" = Some (VNum fv).
Proof.
  intros Hnf H. unfold combine in H. peel_all H.
  apply setattr_arr in H. subst e'. subst_setattrs.
  destruct x8.
  - peel_all E9. subst_setattrs. eexists.
    rewrite lookup_insert_ne by discriminate. apply lookup_insert_eq.
  - injection E9; intros; subst x9. eexists.
    rewrite lookup_insert_ne by discriminate. apply lookup_insert_eq.
Qed.

Lemma combine_get (e e' : engine) n :
  names_free e = true -> combine area_pixel e = Ok e' ->
  In n ["u_color"; "u_spatial"; "b"; "surface_intensity_sparse"; "observable_fraction";
        "spatial_only"] ->
  getattr e' n = getattr e n.
Proof.
  intros Hnf H Hn. unfold combine in H. peel_all H.
  apply setattr_arr in H. subst e'. subst_setattrs.
  destruct x8.
  - peel_all E9. subst_setattrs.
    simpl in Hn; repeat destruct Hn as [<-|Hn]; try contradiction;
      rewrite !getattr_insert by key_ne; reflexivity.
  - injection E9; intros; subst x9.
    simpl in Hn; repeat destruct Hn as [<-|Hn]; try contradiction;
      rewrite !getattr_insert by key_ne; reflexivity.
Qed.

Ltac use_agree e e' :=
  repeat match goal with
  | E : getattr_arr e ?n = Ok _, A : getattr_arr e ?n = getattr_arr e' ?n |- _ =>
      rewrite A in E
  | E : getattr e ?n = Ok _, A : getattr e ?n = getattr e' ?n |- _ =>
      rewrite A in E
  end.

Lemma combine_agree (e e' ea eb : engine) :
  names_free e = true -> names_free e' = true ->
  combine area_pixel e = Ok ea -> combine area_pixel e' = Ok eb ->
  (forall n, In n ["u_spatial"; "u_color"; "surface_intensity_sparse";
                   "observable_fraction"; "spatial_only"] -> getattr e n = getattr e' n) ->
  ea !! "_f" = eb !! "_f".
Proof.
  intros Hnf Hnf' Ha Hb Hag.
  assert (A1 : getattr_arr e "u_spatial" = getattr_arr e' "u_spatial")
    by (unfold getattr_arr; rewrite Hag by in_derived; reflexivity).
  assert (A2 : getattr_arr e "u_color" = getattr_arr e' "u_color")
    by (unfold getattr_arr; rewrite Hag by in_derived; reflexivity).
  assert (A3 : getattr_arr e "surface_intensity_sparse" =
               getattr_arr e' "surface_intensity_sparse")
    by (unfold getattr_arr; rewrite Hag by in_derived; reflexivity).
  assert (A4 : getattr_arr e "observable_fraction" = getattr_arr e' "observable_fraction")
    by (unfold getattr_arr; rewrite Hag by in_derived; reflexivity).
  assert (A5 : getattr e "spatial_only" = getattr e' "spatial_only")
    by (apply Hag; in_derived).
  clear Hag.
  unfold combine in Ha, Hb. peel_all Ha. peel_all Hb.
  apply setattr_arr in Ha. apply setattr_arr in Hb. subst ea eb. subst_setattrs.
  norm_all. use_agree e e'. norm_all.
  match goal with E : (if ?b then _ else _) = Ok _ |- _ => destruct b end.
  - repeat match goal with E : rbind _ _ = Ok _ |- _ => peel_all E end.
    subst_setattrs. norm_all. use_agree e e'. norm_all.
    simplify_map_eq. reflexivity.
  - norm_all. simplify_map_eq. reflexivity.
Qed.

(** Claim C2. In an engine where [sync_params] has just succeeded (no
    sub-model shadowing the derived attribute names), [p], [f] and
    [richness] can be read, and calling the engine returns
    [-sum_i log(1 - p_i) - f * richness] over the entries of [p]. *)
Theorem call_after_sync (e e1 : engine) :
  names_free e = true -> sync e = Ok e1 ->
  exists p f r,
    getattr_arr e1 "p" = Ok p /\ getattr_num e1 "f" = Ok f /\
    getattr_num e1 "richness" = Ok r /\
    call ln_pos e1 = Ok (fsub (fneg (fsum (map (np_log ln_pos) (map (fsub (Fin 1)) p))))
                              (fmul f r)).
Proof.
  intros Hnf H.
  destruct (sync_split_nf _ _ Hnf H) as (e2 & e3 & fs & Hnf2 & _ & _ & Hc & _ & -> & _).
  destruct (combine_f _ _ Hnf2 Hc) as [fv Hfv].
  destruct (combine_p _ _ Hc) as (ex & r & u & b & den & p & Hr & _ & _ & _ & _ & ->).
  assert (Hp : getattr_arr (<["_sync" := VFlags (map (fun kv => (kv.1, false)) fs)]>
                             (<["_p" := VArr p]> ex)) "p" = Ok p).
  { rewrite getattr_arr_insert by key_ne. now apply getattr_arr_prop_insert. }
  assert (Hf : getattr_num (<["_sync" := VFlags (map (fun kv => (kv.1, false)) fs)]>
                             (<["_p" := VArr p]> ex)) "f" = Ok fv).
  { unfold getattr_num. rewrite (getattr_prop_lookup _ "f" "_f" (VNum fv));
      [reflexivity | reflexivity |].
    now rewrite lookup_insert_ne by discriminate. }
  assert (Hr' : getattr_num (<["_sync" := VFlags (map (fun kv => (kv.1, false)) fs)]>
                              (<["_p" := VArr p]> ex)) "richness" = Ok r).
  { rewrite !getattr_num_insert by key_ne. exact Hr. }
  exists p, fv, r. split; [exact Hp|]. split; [exact Hf|]. split; [exact Hr'|].
  unfold call. rewrite Hp, Hf, Hr'. cbn [rbind]. now rewrite fmul_neg1.
Qed.

(** Claim C3 (amended). Starting from an engine left by a successful
    [sync_params] (no sub-model shadowing derived names, and [richness]
    owned by the [richness] sub-model, as in [__init__]), writing only
    [richness] and synchronising again leaves [u_color], [u_spatial], [b]
    and [f] exactly as they were. *)
Theorem richness_write_isolated (e0 e1 e2 e3 : engine) ms r :
  names_free e0 = true -> models_of e0 = Ok ms -> owner "richness" ms = Some "richness" ->
  sync e0 = Ok e1 -> setattr e1 "richness" (VNum r) = Ok e2 -> sync e2 = Ok e3 ->
  getattr e3 "u_color" = getattr e1 "u_color" /\
  getattr e3 "u_spatial" = getattr e1 "u_spatial" /\
  getattr e3 "b" = getattr e1 "b" /\ getattr e3 "f" = getattr e1 "f".
Proof.
  intros Hnf Hms Hown H1 Hset H2.
  destruct (sync_split_nf _ _ Hnf H1)
    as (e2' & e4 & fs & Hnf2 & Hf2 & Hm2 & Hc & Hf4 & He1 & [c Hc'] & [d Hd]).
  destruct (combine_frame _ _ Hnf2 Hc) as (Hnf4 & Hff4 & Hm4).
  assert (Hfs : flags_of e0 = Ok fs) by congruence.
  assert (Hm1 : models_of e1 = Ok ms).
  { rewrite He1, models_of_insert by discriminate. congruence. }
  assert (Hfl1 : flags_of e1 = Ok (map (fun kv => (kv.1, false)) fs))
    by (rewrite He1; apply flags_of_reset).
  assert (Hnf1 : names_free e1 = true)
    by (rewrite He1, names_free_insert by discriminate; exact Hnf4).
  pose proof (setattr_owned _ _ _ _ _ _ _ Hm1 Hown Hfl1 Hset) as He2.
  set (F := map (fun kv => (kv.1, false)) fs) in *.
  assert (Hflag : forall k b, flag e0 k = Ok b -> k <> "richness" -> flag e2 k = Ok false).
  { intros k b Hk Hne. unfold flag. rewrite He2, flags_of_owned. cbn [rbind].
    rewrite assoc_set_ne by exact Hne.
    unfold flag in Hk. rewrite Hfs in Hk. cbn [rbind] in Hk.
    destruct (assoc k fs) as [b'|] eqn:Ea; [|discriminate].
    unfold F. now rewrite (assoc_reset _ _ _ Ea). }
  assert (Hnfe2 : names_free e2 = true)
    by (rewrite He2, (names_free_owned e1 ms); [exact Hnf1 | exact Hm1]).
  unfold sync_params, reset_sync in H2.
  peel H2 x. peel H2 e5. peel H2 e6. peel H2 e7. peel H2 fs'. injection H2 as <-.
  assert (e5 = e2) as ->.
  { unfold sync_color in E0. rewrite (Hflag _ _ Hc') in E0 by discriminate.
    cbn in E0. congruence. }
  assert (e6 = e2) as ->.
  { unfold sync_spatial in E1. rewrite (Hflag _ _ Hd) in E1 by discriminate.
    cbn in E1. congruence. }
  assert (Hg : forall n, In n ["u_color"; "u_spatial"; "b"; "surface_intensity_sparse";
                               "observable_fraction"; "spatial_only"] ->
                 getattr e7 n = getattr e1 n /\ getattr e1 n = getattr e2' n).
  { intros n Hn. rewrite (combine_get _ _ _ Hnfe2 E2 Hn). split.
    - rewrite He2. simpl in Hn; repeat destruct Hn as [<-|Hn]; try contradiction;
        apply (getattr_owned _ _ _ _ _ _ Hm1); try discriminate;
        intros fld Hfld; vm_compute in Hfld; try discriminate Hfld;
        injection Hfld as <-; repeat split; discriminate.
    - rewrite He1, getattr_insert by (try discriminate;
        simpl in Hn; repeat destruct Hn as [<-|Hn]; try contradiction; key_ne).
      apply (combine_get _ _ _ Hnf2 Hc Hn). }
  assert (Hff : e7 !! "_f" = e4 !! "_f").
  { apply (combine_agree e2 e2'); auto. intros n Hn.
    assert (Hn' : In n ["u_color"; "u_spatial"; "b"; "surface_intensity_sparse";
                        "observable_fraction"; "spatial_only"])
      by (simpl in Hn |- *; tauto).
    destruct (Hg n Hn') as [G1 G2].
    rewrite <- (combine_get _ _ _ Hnfe2 E2 Hn'). congruence. }
  destruct (combine_f _ _ Hnf2 Hc) as [fv Hfv].
  assert (Hin : forall n, In n ["u_color"; "u_spatial"; "b"] ->
                  getattr (<["_sync" := VFlags (map (fun kv => (kv.1, false)) fs')]> e7) n
                  = getattr e1 n).
  { intros n Hn. assert (Hn' : In n ["u_color"; "u_spatial"; "b"; "surface_intensity_sparse";
                        "observable_fraction"; "spatial_only"]) by (simpl in Hn |- *; tauto).
    rewrite getattr_insert by (try discriminate;
      simpl in Hn; repeat destruct Hn as [<-|Hn]; try contradiction; key_ne).
    apply (Hg n Hn'). }
  split; [apply Hin; in_derived|]. split; [apply Hin; in_derived|].
  split; [apply Hin; in_derived|].
  rewrite (getattr_prop_lookup _ "f" "_f" (VNum fv)); [| reflexivity |].
  - symmetry. apply (getattr_prop_lookup _ "f" "_f"); [reflexivity|].
    rewrite He1, lookup_insert_ne by discriminate. exact Hfv.
  - rewrite lookup_insert_ne by discriminate. congruence.
Qed.

End Proofs.

Section Optimiser.

Context {Obj Pix Pt : Type}.
Context (catalog : list Obj) (pixels_interior : list Pix).
Context (pix_lonlat : Pix -> Pt) (obj_lonlat : Obj -> Pt) (area_pixel : fl).
Context (kernel_pdf : params -> Pt -> fl) (isochrone_pdf : params -> fl -> Obj -> fl).
Context (isochrone_observableFraction : params -> fl -> list fl).
Context (in_interior : fl -> fl -> bool) (ln_pos : Q -> Q).
Context (vertex_x : list fl -> list fl -> fl).
Context (profileUpperLimit : list fl -> list fl -> fl -> fl).
Context {CI : Type} (confidenceInterval : list fl -> list fl -> fl -> CI).

Local Abbreviation evalat := (eval_at Obj Pix Pt catalog pixels_interior pix_lonlat obj_lonlat
  area_pixel kernel_pdf isochrone_pdf isochrone_observableFraction in_interior ln_pos).
Local Abbreviation evalall := (eval_all Obj Pix Pt catalog pixels_interior pix_lonlat
  obj_lonlat area_pixel kernel_pdf isochrone_pdf isochrone_observableFraction in_interior
  ln_pos).
Local Abbreviation loop := (fit_loop Obj Pix Pt catalog pixels_interior pix_lonlat obj_lonlat
  area_pixel kernel_pdf isochrone_pdf isochrone_observableFraction in_interior ln_pos vertex_x).
Local Abbreviation fit := (fit_richness Obj Pix Pt catalog pixels_interior pix_lonlat
  obj_lonlat area_pixel kernel_pdf isochrone_pdf isochrone_observableFraction in_interior
  ln_pos vertex_x).
Local Abbreviation interval := (richness_interval Obj Pix Pt catalog pixels_interior
  pix_lonlat obj_lonlat area_pixel kernel_pdf isochrone_pdf isochrone_observableFraction
  in_interior ln_pos vertex_x profileUpperLimit CI confidenceInterval).

Lemma eval_at_trace r s l s' : evalat r s = Ok (l, s') -> s'.2 = (s.2 ++ [(r, l)])%list.
Proof.
  unfold eval_at. cbv beta. intros H. peel H res. injection H as <- <-. reflexivity.
Qed.

Lemma eval_all_trace rs : forall s ls s',
  evalall rs s = Ok (ls, s') -> length ls = length rs /\ s'.2 = (s.2 ++ zip rs ls)%list.
Proof.
  induction rs as [|r rs IH]; intros s ls s' H; cbn [eval_all] in H.
  - apply retM_ok in H as [<- ->]. simpl. now rewrite app_nil_r.
  - apply bindM_ok in H as (l & s1 & H1 & H). apply bindM_ok in H as (ls1 & s2 & H2 & H).
    apply retM_ok in H as [<- ->]. apply eval_at_trace in H1.
    destruct (IH _ _ _ H2) as [Hl Hs]. simpl. split; [congruence|].
    rewrite Hs, H1, <- app_assoc. reflexivity.
Qed.

Lemma fit_loop_trace atol maxiter budget : forall it R L s R' L' par s',
  loop atol maxiter budget it R L s = Ok ((R', L', par), s') ->
  exists R2 L2, R' = (R ++ R2)%list /\ L' = (L ++ L2)%list /\ length R2 = length L2 /\
    s'.2 = (s.2 ++ zip R2 L2)%list.
Proof.
  induction budget as [|b IH]; intros it R L s R' L' par s' H; cbn [fit_loop] in H;
    apply bindM_ok in H as ([[found R1] L1] & s1 & Hst & H); cbn beta iota zeta in H;
    (destruct (flt _ (Fin 0)) in Hst;
     [ apply retM_ok in Hst as [[= <- <- <-] ->]
     | apply bindM_ok in Hst as (l & s2 & He & Hst);
       apply bindM_ok in Hst as (m & s3 & Hm & Hst);
       apply liftR_ok in Hm as [_ ->];
       apply retM_ok in Hst as [[= <- <- <-] ->];
       apply eval_at_trace in He ]);
    repeat match type of H with
           | (if ?c then _ else _) _ = _ => destruct c
           end;
    try (apply retM_ok in H as [[= <- <- <-] ->];
         first [ solve [exists [], []; rewrite !app_nil_r; auto]
               | solve [eexists [_], [_]; repeat split; rewrite He; reflexivity] ]).
  destruct (IH _ _ _ _ _ _ _ _ H) as (R2 & L2 & -> & -> & Hl & Hs).
  eexists (_ :: R2), (_ :: L2). rewrite <- !app_assoc. simpl.
  split; [reflexivity|]. split; [reflexivity|]. split; [simpl; congruence|].
  rewrite Hs, He, <- app_assoc. reflexivity.
Qed.

Lemma fit_degenerate_eq atol maxiter (s : St) u :
  getattr_arr s.1 "u" = Ok u -> (existsb isnan u || negb (existsb nonzero u)) = true ->
  fit atol maxiter s = Ok ((Fin 0, Fin 0, None), s).
Proof.
  intros Hu Hd. unfold fit_richness. rewrite Hu. cbn [rbind].
  destruct (existsb isnan u); [reflexivity|]. simpl in Hd. now rewrite Hd.
Qed.

(** Claim C6. If [u] contains a NaN or has no non-zero entry, [fit_richness]
    returns [(0, 0, None)] without error and leaves the state untouched: the
    engine is unchanged and no likelihood evaluation is recorded. *)
Theorem fit_richness_degenerate atol maxiter (s : St) u :
  getattr_arr s.1 "u" = Ok u -> (existsb isnan u || negb (existsb nonzero u)) = true ->
  fit atol maxiter s = Ok ((Fin 0, Fin 0, None), s).
Proof. apply fit_degenerate_eq. Qed.

(** Claim C7 (amended). On the non-degenerate path the first three recorded
    evaluations are at richness [0], [1/f] and [10/f]; every later one is a
    loop evaluation; the returned [(loglike, richness)] pair is one of the
    evaluated pairs, and, provided no evaluated log-likelihood is NaN, it is
    [>=] every evaluated log-likelihood (the three seeds included). *)
Theorem fit_richness_best atol maxiter (s s' : St) lmax rmax par :
  fit atol maxiter s = Ok ((lmax, rmax, Some par), s') ->
  exists f l0 l1 l2 R2 L2,
    getattr_num s.1 "f" = Ok f /\ length R2 = length L2 /\
    s'.2 = (s.2 ++ zip ([Fin 0; fdiv (Fin 1) f; fdiv (Fin 10) f] ++ R2)
                       ([l0; l1; l2] ++ L2))%list /\
    In (rmax, lmax) (zip ([Fin 0; fdiv (Fin 1) f; fdiv (Fin 10) f] ++ R2)
                         ([l0; l1; l2] ++ L2))%list /\
    (Forall (fun l => isnan l = false) ([l0; l1; l2] ++ L2)%list ->
     Forall (fun l => fle l lmax = true) ([l0; l1; l2] ++ L2)%list).
Proof.
  unfold fit_richness. intros H. peel H u.
  destruct (existsb isnan u); [discriminate|].
  destruct (negb (existsb nonzero u)); [discriminate|].
  apply bindM_ok in H as (f & s1 & Hf & H). apply liftR_ok in Hf as [Hf ->].
  apply bindM_ok in H as (l0 & s2 & E0 & H).
  apply bindM_ok in H as (l1 & s3 & E1 & H).
  apply bindM_ok in H as (l2 & s4 & E2 & H).
  apply bindM_ok in H as ([[R' L'] par'] & s5 & E3 & H). cbn beta iota in H.
  apply bindM_ok in H as (k & s6 & E4 & H). apply liftR_ok in E4 as [E4 ->].
  apply retM_ok in H as [[= <- <- <-] ->].
  apply eval_at_trace in E0. apply eval_at_trace in E1. apply eval_at_trace in E2.
  destruct (fit_loop_trace _ _ _ _ _ _ _ _ _ _ _ E3) as (R2 & L2 & -> & -> & Hl & Hs).
  destruct (np_argmax_spec _ _ E4) as [Hk Hmax].
  exists f, l0, l1, l2, R2, L2. split; [exact Hf|]. split; [exact Hl|]. split.
  - rewrite Hs, E2, E1, E0. simpl. rewrite <- !app_assoc. reflexivity.
  - split.
    + apply nth_in_zip; simpl in *; lia.
    + intros Hn. apply Forall_forall. intros y Hy. rewrite list_elem_of_In in Hy.
      exact (Hmax Hn y Hy).
Qed.

(** Claim C10. In the degenerate case [richness_interval] raises: the
    [None] returned by [fit_richness] has no [profileUpperLimit]. *)
Theorem richness_interval_degenerate alpha n (s : St) u :
  getattr_arr s.1 "u" = Ok u -> (existsb isnan u || negb (existsb nonzero u)) = true ->
  interval alpha n s = Err AttributeError.
Proof.
  intros Hu Hd. unfold richness_interval, bindM.
  rewrite (fit_degenerate_eq _ _ _ _ Hu Hd). reflexivity.
Qed.

(** Claim C9 (amended). A successful [richness_interval] evaluates the
    likelihood exactly on [grid]: the [linspace] of [n_pdf_points] points from
    [max(0, richness_max - range)] to [richness_max + range], with [0] put in
    front when the first point is positive; the confidence interval is taken
    from these evaluations. When [n_pdf_points >= 1] and [richness_max] and
    [range] are finite, the [linspace] has [n_pdf_points] points and [grid]
    contains [0]. *)
Theorem richness_interval_grid alpha n (s s' : St) ci :
  interval alpha n s = Ok (ci, s') ->
  exists lmax rmax par s1 g ls,
    fit atol_default maxiter_default s = Ok ((lmax, rmax, Some par), s1) /\
    let range := fsub (profileUpperLimit (par_x par) (par_y par) (Fin 25)) rmax in
    let grid := if flt (Fin 0) (hd NaN g) then Fin 0 :: g else g in
    linspace (py_max (Fin 0) (fsub rmax range)) (fadd rmax range) n = Ok g /\ g <> [] /\
    length ls = length grid /\ s'.2 = (s1.2 ++ zip grid ls)%list /\
    ci = confidenceInterval grid (map (fmul (Fin 2)) ls) alpha /\
    ((1 <= n)%Z -> isfinite rmax = true -> isfinite range = true ->
       length g = Z.to_nat n /\ exists x, In x grid /\ feq x (Fin 0) = true).
Proof.
  unfold richness_interval. intros H.
  apply bindM_ok in H as ([[lmax rmax] [par|]] & s1 & Hfit & H); cbn beta iota in H;
    [|discriminate H].
  apply bindM_ok in H as (g & s2 & Hg & H). apply liftR_ok in Hg as [Hg ->].
  apply bindM_ok in H as (x & s3 & Hx & H). apply liftR_ok in Hx as [Hx ->].
  destruct g as [|x' g]; [discriminate Hx|]. injection Hx as ->.
  apply bindM_ok in H as (ls & s4 & Hev & H). apply retM_ok in H as [<- ->].
  destruct (eval_all_trace _ _ _ _ Hev) as [Hl Hs].
  exists lmax, rmax, par, s1, (x :: g), ls. cbv zeta.
  split; [exact Hfit|]. split; [exact Hg|]. split; [discriminate|].
  split; [exact Hl|]. split; [exact Hs|]. split; [reflexivity|].
  intros Hn Hr Hrange.
  destruct (linspace_len (py_max (Fin 0)
             (fsub rmax (fsub (profileUpperLimit (par_x par) (par_y par) (Fin 25)) rmax)))
             (fadd rmax (fsub (profileUpperLimit (par_x par) (par_y par) (Fin 25)) rmax)) n)
    as (g' & Hg' & Hlen); [lia|].
  rewrite Hg in Hg'. injection Hg' as <-. split; [exact Hlen|].
  destruct rmax as [qm| | |]; try discriminate Hr.
  destruct (fsub (profileUpperLimit (par_x par) (par_y par) (Fin 25)) (Fin qm)) as [qr| | |];
    try discriminate Hrange.
  simpl hd. destruct (flt (Fin 0) x) eqn:Ex.
  - exists (Fin 0). split; [now left | reflexivity].
  - unfold py_max in Hg. cbn [fsub fneg fadd] in Hg.
    destruct (flt (Fin 0) (Fin (qm + - qr))) eqn:Ed.
    + destruct (linspace_hd _ _ _ _ Hn Hg) as (q & Hq & Hqe). simpl in Hq. subst x.
      exfalso. cbn [flt] in Ex, Ed. apply qlt_iff in Ed.
      assert (Hlt : qlt 0 q = true) by (apply qlt_iff; now rewrite Hqe).
      congruence.
    + destruct (linspace_hd _ _ _ _ Hn Hg) as (q & Hq & Hqe). simpl in Hq. subst x.
      exists (Fin q). split; [now left|]. simpl. now apply Qeq_bool_iff.
Qed.

End Optimiser.

(* ------------------------------------------------------------------ *)
(** ** Further properties of the engine *)

Ltac not_in := let H := fresh in intros H; simpl in H; repeat destruct H as [H|H]; try discriminate H; try contradiction.
Ltac in_sw := unfold sync_written; in_derived.

Lemma agree_refl e : agree_outside e e.
Proof. intros k _. reflexivity. Qed.

Lemma agree_insert_r (e e' : engine) k v :
  agree_outside e e' -> In k sync_written -> agree_outside e (<[k := v]> e').
Proof.
  intros H Hk k' Hk'. rewrite lookup_insert_ne by (intros ->; contradiction). now apply H.
Qed.

Lemma agree_trans e1 e2 e3 : agree_outside e1 e2 -> agree_outside e2 e3 -> agree_outside e1 e3.
Proof. intros H1 H2 k Hk. rewrite H2 by exact Hk. now apply H1. Qed.

Ltac agree_tac :=
  repeat (apply agree_insert_r; [|in_sw]); first [apply agree_refl | eassumption].

Lemma models_of_agree e e' : agree_outside e e' -> models_of e' = models_of e.
Proof. intros H. unfold models_of. rewrite H by not_in. reflexivity. Qed.

Lemma getattr_plain_agree e e' n :
  agree_outside e e' -> ~ In n sync_written -> getattr_plain e' n = getattr_plain e n.
Proof.
  intros H Hn. unfold getattr_plain, getattr_fallback. rewrite H by exact Hn.
  now rewrite (models_of_agree _ _ H).
Qed.

Lemma getattr_agree e e' n :
  agree_outside e e' -> ~ In n ("u" :: "p" :: "f" :: sync_written) ->
  getattr e' n = getattr e n.
Proof.
  intros H Hn. unfold getattr, getattr_fallback. rewrite (models_of_agree _ _ H).
  assert (Hn' : ~ In n sync_written) by (intros C; apply Hn; right; right; right; exact C).
  destruct (prop_field n) as [fld|] eqn:Ep.
  - assert (fld = "_b") as ->.
    { unfold prop_field in Ep.
      destruct (String.eqb_spec n "u") as [->|]; [exfalso; apply Hn; now left|].
      destruct (String.eqb_spec n "b") as [->|]; [congruence|].
      destruct (String.eqb_spec n "p") as [->|]; [exfalso; apply Hn; right; now left|].
      destruct (String.eqb_spec n "f") as [->|]; [exfalso; apply Hn; right; right; now left|].
      discriminate. }
    rewrite (getattr_plain_agree e e' "_b") by (try exact H; not_in).
    reflexivity.
  - now apply getattr_plain_agree.
Qed.

Lemma assoc_set_eq {V} (k : string) (v : V) l : assoc k (assoc_set k v l) = Some v.
Proof.
  induction l as [|[k' v'] l IH]; simpl.
  - now rewrite String.eqb_refl.
  - destruct (String.eqb_spec k k') as [->|Hk]; simpl.
    + now rewrite String.eqb_refl.
    + destruct (String.eqb_spec k k'); [contradiction | exact IH].
Qed.

Lemma find_param_set_eq n key x ms :
  owner n ms = Some key -> find_param n (model_set ms key n x) = Some x.
Proof.
  induction ms as [|[k ps] ms IH]; simpl; [discriminate|].
  unfold mem_key. destruct (assoc n ps) eqn:Ea.
  - intros [= ->]. rewrite String.eqb_refl. simpl. now rewrite assoc_set_eq.
  - intros Ho. destruct (String.eqb_spec k key); simpl.
    + now rewrite assoc_set_eq.
    + rewrite Ea. now apply IH.
Qed.

Lemma owner_set_eq n key x ms :
  owner n ms = Some key -> owner n (model_set ms key n x) = Some key.
Proof.
  induction ms as [|[k ps] ms IH]; simpl; [discriminate|].
  unfold mem_key. destruct (assoc n ps) eqn:Ea.
  - intros [= ->]. rewrite String.eqb_refl. simpl. now rewrite assoc_set_eq.
  - intros Ho. destruct (String.eqb_spec k key) as [->|]; simpl.
    + now rewrite assoc_set_eq.
    + rewrite Ea. now apply IH.
Qed.

Lemma find_param_none n ms : owner n ms = None -> find_param n ms = None.
Proof.
  induction ms as [|[k ps] ms IH]; simpl; auto.
  unfold mem_key. destruct (assoc n ps); [discriminate | exact IH].
Qed.

Lemma owner_assoc_set_none n key model ms :
  owner n ms = None -> mem_key n model = false -> owner n (assoc_set key model ms) = None.
Proof.
  intros Ho Hm. induction ms as [|[k ps] ms IH]; simpl in *.
  - now rewrite Hm.
  - destruct (mem_key n ps) eqn:Hp; [discriminate|].
    destruct (String.eqb key k); simpl; [rewrite Hm; exact Ho|rewrite Hp; auto].
Qed.

Lemma flags_sync_some (e : engine) fs : flags_of e = Ok fs -> e !! "_sync" = Some (VFlags fs).
Proof.
  unfold flags_of, getattr_plain, getattr_fallback.
  destruct (e !! "_sync") as [v|].
  - cbn [rbind]. destruct v; try discriminate. now intros [= ->].
  - destruct (models_of e); cbn [rbind]; [|discriminate].
    destruct (find_param "_sync" _); discriminate.
Qed.

Lemma models_some (e : engine) ms : models_of e = Ok ms -> e !! "models" = Some (VModels ms).
Proof. unfold models_of. destruct (e !! "models") as [[]|]; try discriminate. now intros [= ->]. Qed.

(** Extra X6. Writing a number to an attribute that neither the instance dictionary
    nor a property shadows, then reading it back, gives the number; no
    other plain attribute changes. *)
Theorem setattr_roundtrip (e e' : engine) n x :
  prop_field n = None -> e !! n = None -> setattr e n (VNum x) = Ok e' ->
  getattr e' n = Ok (VNum x) /\
  forall n', n' <> n -> n' <> "models" -> n' <> "_sync" -> prop_field n' = None ->
    getattr e' n' = getattr e n'.
Proof.
  intros Hp Hn H. pose proof H as H0. unfold setattr in H.
  destruct (models_of e) as [ms|] eqn:Hm; cbn [rbind] in H; [|discriminate].
  pose proof (models_some _ _ Hm) as Hms.
  assert (Hnm : n <> "models") by congruence.
  destruct (owner n ms) as [key|] eqn:Ho.
  - peel H fs. cbn in H. injection H as <-.
    pose proof (flags_sync_some _ _ E) as Hs.
    assert (Hns : n <> "_sync") by congruence.
    split.
    + unfold getattr. rewrite Hp. unfold getattr_plain.
      rewrite !lookup_insert_ne by congruence. rewrite Hn.
      unfold getattr_fallback. rewrite (models_of_owned e ms key n x fs). cbn [rbind].
      now rewrite find_param_set_eq.
    + intros n' H1 H2 H3 H4. apply (getattr_owned e ms key n x fs Hm); auto.
      intros fld Hf. congruence.
  - destruct (read_only n); [discriminate|]. injection H as <-.
    split.
    + unfold getattr, getattr_plain. rewrite Hp. now rewrite lookup_insert_eq.
    + intros n' H1 H2 H3 H4. apply getattr_insert; auto. intros fld Hf. congruence.
Qed.

(** Extra X7. [__setattr__] sets exactly the dirty flag of the sub-model that owns
    the name, and no flag when no sub-model owns it. *)
Theorem setattr_marks_owner (e e' : engine) ms n v k :
  models_of e = Ok ms -> n <> "_sync" -> n <> "models" -> setattr e n v = Ok e' ->
  flag e' k = match owner n ms with
              | Some key => if String.eqb k key then Ok true else flag e k
              | None => flag e k
              end.
Proof.
  intros Hm Hs Hmo H. unfold setattr in H. rewrite Hm in H. cbn [rbind] in H.
  destruct (owner n ms) as [key|] eqn:Ho.
  - peel H fs. peel H ms'. injection H as <-.
    unfold flag at 1. unfold flags_of, getattr_plain.
    rewrite lookup_insert_ne by discriminate. rewrite lookup_insert_eq. cbn [rbind].
    destruct (String.eqb_spec k key) as [->|Hk].
    + now rewrite assoc_set_eq.
    + rewrite assoc_set_ne by exact Hk. unfold flag. now rewrite E.
  - destruct (read_only n); [discriminate|]. injection H as <-.
    apply flag_eq. now apply flags_of_insert.
Qed.

(** Extra X8. [set_model] stores the model under its name (creating [models] if
    needed), keeps the other sub-models, and touches no other attribute;
    in particular it leaves the dirty flags in [_sync] alone. *)
Theorem set_model_update (e e' : engine) name model :
  set_model e name model = Ok e' ->
  model_params e' name = Ok model /\
  (forall k q, k <> name -> model_params e k = Ok q -> model_params e' k = Ok q) /\
  (forall a, a <> "models" -> e' !! a = e !! a).
Proof.
  unfold set_model. destruct (e !! "models") as [v|] eqn:Em.
  - intros H. peel H ms. injection H as <-.
    split; [|split].
    + unfold model_params, models_of. rewrite lookup_insert_eq. cbn [rbind].
      now rewrite assoc_set_eq.
    + intros k q Hk. unfold model_params. rewrite E. cbn [rbind].
      unfold models_of at 1. rewrite lookup_insert_eq. cbn [rbind].
      now rewrite assoc_set_ne by exact Hk.
    + intros a Ha. now rewrite lookup_insert_ne by congruence.
  - intros H. peel H ms. injection H as <-.
    split; [|split].
    + unfold model_params, models_of. rewrite lookup_insert_eq. cbn [rbind].
      now rewrite assoc_set_eq.
    + intros k q Hk. unfold model_params, models_of. rewrite Em. discriminate.
    + intros a Ha. now rewrite !lookup_insert_ne by congruence.
Qed.

Lemma assoc_notin {V} (n : string) (l : list (string * V)) :
  n ∉ l.*1 -> assoc n l = None.
Proof.
  induction l as [|[k v] l IH]; simpl; auto. intros Hn.
  destruct (String.eqb_spec n k) as [->|]; [exfalso; apply Hn; left|].
  apply IH. intros C. apply Hn. now right.
Qed.

Lemma assoc_set_keys {V} (k x : string) (v : V) l :
  x ∈ (assoc_set k v l).*1 -> x = k \/ x ∈ l.*1.
Proof.
  induction l as [|[k' v'] l IH]; simpl.
  - rewrite list_elem_of_singleton. auto.
  - destruct (String.eqb_spec k k') as [->|]; simpl; rewrite !elem_of_cons; [tauto|].
    intros [->|Hx]; [auto|]. destruct (IH Hx); auto.
Qed.

Lemma assoc_set_nodup {V} (k : string) (v : V) l :
  NoDup l.*1 -> NoDup (assoc_set k v l).*1.
Proof.
  induction l as [|[k' v'] l IH]; simpl; intros Hl.
  - apply NoDup_singleton.
  - apply NoDup_cons in Hl as [Hk' Hl].
    destruct (String.eqb_spec k k') as [->|Hne]; simpl; apply NoDup_cons; split; auto.
    intros C. destruct (assoc_set_keys _ _ _ _ C); auto.
Qed.

Lemma odict_update_assoc {V} n (other : list (string * V)) : forall d,
  NoDup other.*1 ->
  assoc n (odict_update d other) =
    match assoc n other with Some v => Some v | None => assoc n d end.
Proof.
  unfold odict_update. induction other as [|[k v] other IH]; intros d Hd; simpl; auto.
  apply NoDup_cons in Hd as [Hk Hd]. rewrite IH by exact Hd.
  destruct (String.eqb_spec n k) as [->|Hne].
  - now rewrite (assoc_notin k other Hk), assoc_set_eq.
  - now rewrite assoc_set_ne by exact Hne.
Qed.

Lemma odict_update_nodup {V} (other : list (string * V)) : forall d,
  NoDup d.*1 -> NoDup (odict_update d other).*1.
Proof.
  unfold odict_update. induction other as [|[k v] other IH]; intros d Hd; simpl; auto.
  apply IH. now apply assoc_set_nodup.
Qed.

Lemma find_param_app n ms ms' :
  find_param n (ms ++ ms') =
    match find_param n ms with Some v => Some v | None => find_param n ms' end.
Proof.
  induction ms as [|[k ps] ms IH]; simpl; auto. destruct (assoc n ps); auto.
Qed.

Lemma params_fold_assoc n (ms : list (string * params)) : forall (acc : params),
  Forall (fun kp => NoDup kp.2.*1) ms ->
  assoc n (fold_left (fun acc kp => odict_update acc kp.2) ms acc) =
    match find_param n (rev ms) with Some v => Some v | None => assoc n acc end.
Proof.
  induction ms as [|[k ps] ms IH]; intros acc Hnd; simpl; auto.
  apply Forall_cons in Hnd as [Hps Hnd]. rewrite IH by exact Hnd.
  rewrite find_param_app. simpl. rewrite odict_update_assoc by exact Hps.
  destruct (find_param n (rev ms)); auto. destruct (assoc n ps); auto.
Qed.

Lemma params_fold_nodup (ms : list (string * params)) : forall (acc : params),
  NoDup acc.*1 -> NoDup (fold_left (fun acc kp => odict_update acc kp.2) ms acc).*1.
Proof.
  induction ms as [|[k ps] ms IH]; intros acc Hacc; simpl; auto.
  apply IH. now apply odict_update_nodup.
Qed.

(** Extra X10. The [params] property merges the sub-models' parameters without
    duplicates; a name several sub-models declare takes the value of the
    last one, whereas reading the name on the engine ([__getattr__], for a
    name neither in the instance dictionary nor a property) gives the
    value of the first one. *)
Theorem params_prop_lookup (e : engine) ms P n :
  models_of e = Ok ms -> Forall (fun kp => NoDup kp.2.*1) ms -> params_prop e = Ok P ->
  NoDup P.*1 /\ assoc n P = find_param n (rev ms) /\
  (e !! n = None -> prop_field n = None ->
   getattr e n = match find_param n ms with
                 | Some v => Ok (VNum v)
                 | None => Err AttributeError
                 end).
Proof.
  intros Hm Hnd H. unfold params_prop in H. rewrite Hm in H. injection H as <-.
  split; [|split].
  - apply params_fold_nodup. constructor.
  - rewrite params_fold_assoc by exact Hnd. now destruct (find_param n (rev ms)).
  - intros Hn Hp. unfold getattr. rewrite Hp. unfold getattr_plain. rewrite Hn.
    unfold getattr_fallback. rewrite Hm. reflexivity.
Qed.

Lemma getattr_models_swap (e : engine) ms ms' n :
  models_of e = Ok ms -> find_param n ms' = find_param n ms -> n <> "models" ->
  prop_field n = None ->
  getattr (<["models" := VModels ms']> e) n = getattr e n.
Proof.
  intros Hm Hf Hn Hp. unfold getattr. rewrite Hp. unfold getattr_plain.
  rewrite lookup_insert_ne by congruence. destruct (e !! n); auto.
  unfold getattr_fallback, models_of at 1. rewrite lookup_insert_eq, Hm. cbn [rbind].
  now rewrite Hf.
Qed.

Lemma names_free_set_model (e : engine) ms key model :
  models_of e = Ok ms -> names_free e = true ->
  Forall (fun n => mem_key n model = false) derived_names ->
  names_free (<["models" := VModels (assoc_set key model ms)]> e) = true.
Proof.
  intros Hm Hnf Hd. unfold names_free in *. rewrite Hm in Hnf.
  unfold models_of at 1. rewrite lookup_insert_eq. cbn [rbind].
  apply forallb_forall. intros n Hn.
  pose proof (proj1 (forallb_forall _ _) Hnf n Hn) as Ho.
  pose proof (proj1 (List.Forall_forall _ _) Hd n Hn) as Hk.
  cbv beta in Ho, Hk. destruct (owner n ms) eqn:Eo; [discriminate|].
  now rewrite owner_assoc_set_none.
Qed.

Lemma mem_key_set_ne {V} (m n : string) (x : V) ps :
  m <> n -> mem_key m (assoc_set n x ps) = mem_key m ps.
Proof. intros H. unfold mem_key. now rewrite assoc_set_ne by exact H. Qed.

Lemma owner_model_set_ne m n key x ms :
  m <> n -> owner m (model_set ms key n x) = owner m ms.
Proof.
  intros H. induction ms as [|[k ps] ms IH]; simpl; auto.
  destruct (String.eqb k key); simpl; rewrite ?mem_key_set_ne by exact H;
    destruct (mem_key m ps); auto.
Qed.

Lemma setattr_names_free (e e' : engine) n v :
  names_free e = true -> n <> "models" -> setattr e n v = Ok e' -> names_free e' = true.
Proof.
  intros Hnf Hn H. pose proof Hnf as Hnf'. unfold names_free in Hnf'.
  destruct (models_of e) as [ms|] eqn:Hm; [|discriminate].
  unfold setattr in H. rewrite Hm in H. cbn [rbind] in H.
  destruct (owner n ms) as [key|] eqn:Ho.
  - peel H fs. peel H ms'. injection H as <-. unfold model_setattr in E0. peel E0 x.
    injection E0 as <-. unfold names_free.
    rewrite (models_of_owned e ms key n x fs). apply forallb_forall. intros m Hmd.
    pose proof (proj1 (forallb_forall _ _) Hnf' m Hmd) as Hom. cbv beta in Hom.
    rewrite owner_model_set_ne; [exact Hom|]. intros ->. now rewrite Ho in Hom.
  - destruct (read_only n); [discriminate|]. injection H as <-.
    now rewrite names_free_insert.
Qed.

Lemma setattrs_names_free kw : forall (e e' : engine),
  names_free e = true -> Forall (fun kv => kv.1 <> "models") kw -> setattrs e kw = Ok e' ->
  names_free e' = true.
Proof.
  induction kw as [|[k v] kw IH]; intros e e' Hnf Hkw H; cbn [setattrs] in H.
  - now injection H as <-.
  - apply Forall_cons in Hkw as [Hk Hkw]. peel H e2.
    exact (IH _ _ (setattr_names_free _ _ _ _ Hnf Hk E) Hkw H).
Qed.

Lemma getattr_arr_insert_eq (e : engine) n xs :
  prop_field n = None -> getattr_arr (<[n := VArr xs]> e) n = Ok xs.
Proof. intros H. unfold getattr_arr, getattr, getattr_plain. rewrite H. now rewrite lookup_insert_eq. Qed.

Lemma bcast_len_n op xs ys zs n :
  length xs = n -> length ys = 1 \/ length ys = n -> bcast op xs ys = Ok zs -> length zs = n.
Proof.
  unfold bcast. intros Hx Hy. destruct (Nat.eqb_spec (length xs) (length ys)) as [Hl|Hl].
  - intros [= <-]. rewrite length_zip_with. lia.
  - destruct Hy as [Hy|Hy]; [|lia].
    destruct ys as [|y [|y' ys]]; simpl in Hy; try lia.
    destruct xs as [|x [|x' xs]]; simpl in Hl, Hx;
      [intros [= <-]; simpl; lia | lia | intros [= <-]; simpl; rewrite length_map; lia].
Qed.

Section ExtraEngine.

Context {Obj Pix Pt : Type}.
Context (catalog : list Obj) (pixels_interior : list Pix).
Context (pix_lonlat : Pix -> Pt) (obj_lonlat : Obj -> Pt) (area_pixel : fl).
Context (kernel_pdf : params -> Pt -> fl) (isochrone_pdf : params -> fl -> Obj -> fl).
Context (isochrone_observableFraction : params -> fl -> list fl).

Local Abbreviation sync := (sync_params Obj Pix Pt catalog pixels_interior pix_lonlat obj_lonlat
                          area_pixel kernel_pdf isochrone_pdf isochrone_observableFraction).
Local Abbreviation scolor := (sync_color Obj catalog isochrone_pdf isochrone_observableFraction).
Local Abbreviation sspatial := (sync_spatial Obj Pix Pt catalog pixels_interior pix_lonlat
                              obj_lonlat kernel_pdf).

Lemma sync_color_agree (e e' : engine) :
  names_free e = true -> scolor e = Ok e' -> agree_outside e e'.
Proof.
  unfold sync_color. intros Hnf H. peel H c. destruct c.
  - peel_all H. subst_setattrs. agree_tac.
  - injection H as <-. apply agree_refl.
Qed.

Lemma calc_signal_spatial_agree (e : engine) us e' :
  names_free e = true -> calc_signal_spatial Obj Pix Pt catalog pixels_interior pix_lonlat
                           obj_lonlat kernel_pdf e = Ok (us, e') -> agree_outside e e'.
Proof.
  unfold calc_signal_spatial. intros Hnf H. peel_all H. subst_setattrs.
  injection H as _ <-. agree_tac.
Qed.

Lemma sync_spatial_agree (e e' : engine) :
  names_free e = true -> sspatial e = Ok e' -> agree_outside e e'.
Proof.
  unfold sync_spatial. intros Hnf H. peel H c. destruct c.
  - peel H r. destruct r as [us e2]. cbn in H.
    pose proof (calc_signal_spatial_agree _ _ _ Hnf E0) as A.
    destruct (calc_signal_spatial_frame catalog pixels_interior pix_lonlat obj_lonlat
                kernel_pdf _ _ _ Hnf E0) as (Hnf2 & _ & _).
    subst_setattrs. agree_tac.
  - injection H as <-. apply agree_refl.
Qed.

Lemma combine_agree_out (e e' : engine) :
  names_free e = true -> combine area_pixel e = Ok e' -> agree_outside e e'.
Proof.
  intros Hnf H. unfold combine in H. peel_all H.
  apply setattr_arr in H. subst e'. subst_setattrs. norm_all.
  destruct x8.
  - peel_all E9. subst_setattrs. agree_tac.
  - injection E9; intros; subst x9. agree_tac.
Qed.

Lemma sync_agree (e e1 : engine) :
  names_free e = true -> sync e = Ok e1 -> agree_outside e e1.
Proof.
  intros Hnf H. unfold sync_params, reset_sync in H.
  peel H x. peel H e2. peel H e3. peel H e4. peel H fs. injection H as <-.
  destruct (sync_color_frame catalog isochrone_pdf isochrone_observableFraction _ _ Hnf E0)
    as (Hnf2 & _).
  destruct (sync_spatial_frame catalog pixels_interior pix_lonlat obj_lonlat kernel_pdf
              _ _ Hnf2 E1) as (Hnf3 & _).
  apply agree_insert_r; [|in_sw].
  apply (agree_trans _ e2); [exact (sync_color_agree _ _ Hnf E0)|].
  apply (agree_trans _ e3); [exact (sync_spatial_agree _ _ Hnf2 E1)|].
  exact (combine_agree_out _ _ Hnf3 E2).
Qed.

(** Extra X1. [sync_params] leaves the sub-models as they are, clears every dirty
    flag, and changes no attribute other than [_sync], the derived arrays
    and the properties [u], [p], [f] that read them. *)
Theorem sync_params_frame (e e1 : engine) :
  names_free e = true -> sync e = Ok e1 ->
  models_of e1 = models_of e /\
  (exists fs, flags_of e = Ok fs /\ flags_of e1 = Ok (map (fun kv => (kv.1, false)) fs)) /\
  forall n, ~ In n ("u" :: "p" :: "f" :: sync_written) -> getattr e1 n = getattr e n.
Proof.
  intros Hnf H. pose proof (sync_agree _ _ Hnf H) as A.
  split; [exact (models_of_agree _ _ A)|]. split.
  - destruct (sync_split_nf catalog pixels_interior pix_lonlat obj_lonlat area_pixel kernel_pdf
                isochrone_pdf isochrone_observableFraction _ _ Hnf H)
      as (e2 & e3 & fs & Hnf2 & Hf2 & _ & Hc & Hf3 & -> & _).
    destruct (combine_frame _ _ _ Hnf2 Hc) as (_ & Hf & _).
    exists fs. split; [congruence|]. apply flags_of_reset.
  - intros n Hn. exact (getattr_agree _ _ _ A Hn).
Qed.

Ltac combine_sig_tac :=
  do 7 eexists;
  split; [reflexivity|]; split; [reflexivity|]; split; [eassumption|]; split; [eassumption|];
  split; [match goal with H : getattr _ "spatial_only" = Ok _ |- _ => rewrite H end;
          cbn [rbind]; eassumption|];
  split; [simplify_map_eq; reflexivity|]; split; [simplify_map_eq; reflexivity|];
  hnf; split; first [reflexivity | eassumption].

Lemma combine_signal (e e' : engine) :
  names_free e = true -> combine area_pixel e = Ok e' ->
  exists us uc sis obs so u w,
    getattr_arr e "u_spatial" = Ok us /\ getattr_arr e "u_color" = Ok uc /\
    getattr_arr e "surface_intensity_sparse" = Ok sis /\
    getattr_arr e "observable_fraction" = Ok obs /\
    rbind (getattr e "spatial_only") truthy = Ok so /\
    e' !! "_u" = Some (VArr u) /\ e' !! "_f" = Some (VNum (fmul area_pixel (fsum w))) /\
    (if so then u = us /\
       bcast fmul sis (map (fun x => if flt (Fin 0) x then Fin 1 else Fin 0) obs) = Ok w
     else bcast fmul us uc = Ok u /\ bcast fmul sis obs = Ok w).
Proof.
  intros Hnf H. unfold combine in H. peel_all H.
  apply setattr_arr in H. subst e'. subst_setattrs. norm_all.
  destruct x8.
  - peel_all E9. subst_setattrs. norm_all. combine_sig_tac.
  - injection E9; intros; subst x9. norm_all. combine_sig_tac.
Qed.

(** Extra X2. After [sync_params], [u] is [u_spatial * u_color] and [f] is
    [area_pixel * sum(surface_intensity_sparse * observable_fraction)], both
    read from the synchronised engine; with [spatial_only], [u] is
    [u_spatial] and the observable fraction is replaced by its indicator
    [observable_fraction > 0]. *)
Theorem sync_params_signal (e e1 : engine) :
  names_free e = true -> sync e = Ok e1 ->
  exists us uc sis obs so u w,
    getattr_arr e1 "u_spatial" = Ok us /\ getattr_arr e1 "u_color" = Ok uc /\
    getattr_arr e1 "surface_intensity_sparse" = Ok sis /\
    getattr_arr e1 "observable_fraction" = Ok obs /\
    rbind (getattr e1 "spatial_only") truthy = Ok so /\
    getattr_arr e1 "u" = Ok u /\ getattr_num e1 "f" = Ok (fmul area_pixel (fsum w)) /\
    (if so then u = us /\
       bcast fmul sis (map (fun x => if flt (Fin 0) x then Fin 1 else Fin 0) obs) = Ok w
     else bcast fmul us uc = Ok u /\ bcast fmul sis obs = Ok w).
Proof.
  intros Hnf H.
  destruct (sync_split_nf catalog pixels_interior pix_lonlat obj_lonlat area_pixel kernel_pdf
              isochrone_pdf isochrone_observableFraction _ _ Hnf H)
    as (e2 & e3 & fs & Hnf2 & _ & _ & Hc & _ & -> & _).
  destruct (combine_signal _ _ Hnf2 Hc)
    as (us & uc & sis & obs & so & u & w & Hus & Huc & Hsis & Hobs & Hso & Hu & Hf & Hrel).
  assert (G : forall n, In n ["u_color"; "u_spatial"; "b"; "surface_intensity_sparse";
                              "observable_fraction"; "spatial_only"] ->
            getattr (<["_sync" := VFlags (map (fun kv => (kv.1, false)) fs)]> e3) n =
            getattr e2 n).
  { intros n Hn. rewrite getattr_insert.
    - exact (combine_get _ _ _ _ Hnf2 Hc Hn).
    - discriminate.
    - intros Heq. rewrite <- Heq in Hn. simpl in Hn.
      repeat destruct Hn as [Hn|Hn]; try discriminate Hn; contradiction.
    - intros fld Hfld. simpl in Hn. repeat destruct Hn as [<-|Hn]; try contradiction;
        vm_compute in Hfld; try discriminate Hfld; injection Hfld as <-; discriminate. }
  exists us, uc, sis, obs, so, u, w.
  unfold getattr_arr, getattr_num.
  rewrite !G by in_derived.
  split; [exact Hus|]. split; [exact Huc|]. split; [exact Hsis|]. split; [exact Hobs|].
  split; [exact Hso|].
  rewrite (getattr_prop_lookup _ "u" "_u" (VArr u)); [| reflexivity |].
  2: { rewrite lookup_insert_ne by discriminate. exact Hu. }
  rewrite (getattr_prop_lookup _ "f" "_f" (VNum (fmul area_pixel (fsum w)))); [| reflexivity |].
  2: { rewrite lookup_insert_ne by discriminate. exact Hf. }
  split; [reflexivity|]. split; [reflexivity|]. exact Hrel.
Qed.

(** Extra X3. [sync_params] raises [ValueError] when the colour model is dirty and
    the isochrone's observable fraction does not sum to a positive number. *)
Theorem sync_params_no_observable_fraction (e : engine) b dm cps :
  flag e "richness" = Ok b -> flag e "color" = Ok true ->
  getattr_num e "distance_modulus" = Ok dm -> model_params e "color" = Ok cps ->
  flt (Fin 0) (fsum (isochrone_observableFraction cps dm)) = false ->
  sync e = Err ValueError.
Proof.
  intros Hr Hc Hdm Hcps Hobs.
  unfold sync_params, sync_color, calc_observable_fraction.
  rewrite Hr. cbn [rbind]. rewrite Hc, Hdm. cbn [rbind]. rewrite Hcps. cbn [rbind].
  now rewrite Hobs.
Qed.

(** Extra X9. After [set_model] replaces the colour model of a synchronised
    likelihood, [sync_params] keeps the old colour signal and observable
    fraction: [set_model] sets no dirty flag, so the colour block is
    skipped although the new parameters are in place. *)
Theorem set_model_stale (e e1 e2 e3 : engine) model :
  names_free e = true -> sync e = Ok e1 -> set_model e1 "color" model = Ok e2 ->
  Forall (fun n => mem_key n model = false) derived_names -> sync e2 = Ok e3 ->
  model_params e3 "color" = Ok model /\
  forall n, In n ["observable_fraction"; "u_color"; "u_spatial"] -> getattr e3 n = getattr e1 n.
Proof.
  intros Hnf H1 H2 Hd H3.
  pose proof (sync_agree _ _ Hnf H1) as A1.
  destruct (sync_split_nf _ _ _ _ _ _ _ _ _ _ Hnf H1)
    as (e4 & e5 & fs & Hnf4 & Hf4 & Hm4 & Hc5 & Hf5 & -> & [c Hc] & [d Hd']).
  destruct (combine_frame _ _ _ Hnf4 Hc5) as (_ & Hf45 & _).
  assert (Hfs : flags_of e = Ok fs) by congruence.
  pose proof Hnf as Hnf'. unfold names_free in Hnf'.
  destruct (models_of e) as [ms|] eqn:Hm; [|discriminate].
  assert (Hm1 : models_of (<["_sync" := VFlags (map (fun kv => (kv.1, false)) fs)]> e5) = Ok ms)
    by (rewrite (models_of_agree _ _ A1); exact Hm).
  unfold set_model in H2. rewrite (models_some _ _ Hm1) in H2. rewrite Hm1 in H2.
  cbn [rbind] in H2. injection H2 as <-.
  set (e1 := <["_sync" := VFlags (map (fun kv => (kv.1, false)) fs)]> e5) in *.
  assert (Hnf2 : names_free (<["models" := VModels (assoc_set "color" model ms)]> e1) = true)
    by (apply names_free_set_model; auto;
        unfold names_free; rewrite (models_of_agree _ _ A1); exact Hnf).
  assert (Hfe : flags_of (<["models" := VModels (assoc_set "color" model ms)]> e1) = flags_of e1).
  { transitivity (Ok (map (fun kv => (kv.1, false)) fs) : result (list (string * bool)));
      [|symmetry; apply flags_of_reset].
    unfold flags_of, getattr_plain. rewrite lookup_insert_ne by discriminate.
    unfold e1. rewrite lookup_insert_eq. reflexivity. }
  pose proof (sync_agree _ _ Hnf2 H3) as A2.
  split.
  - unfold model_params. rewrite (models_of_agree _ _ A2).
    unfold models_of. rewrite lookup_insert_eq. cbn [rbind]. now rewrite assoc_set_eq.
  - intros n Hn.
    unfold sync_params in H3. peel H3 x.
    unfold sync_color in H3.
    rewrite (flag_eq _ _ _ Hfe) in H3. unfold e1 in H3 at 1.
    rewrite (flag_reset _ _ _ "color" _ Hfs Hc) in H3. cbn [rbind] in H3.
    unfold sync_spatial in H3.
    rewrite (flag_eq _ _ _ Hfe) in H3. unfold e1 in H3 at 1.
    rewrite (flag_reset _ _ _ "spatial" _ Hfs Hd') in H3. cbn [rbind] in H3.
    peel H3 e6. unfold reset_sync in H3. peel H3 fs'. injection H3 as <-.
    assert (Hnd : In n derived_names) by (simpl in Hn |- *; tauto).
    assert (Hp : prop_field n = None)
      by (simpl in Hn; repeat destruct Hn as [<-|Hn]; try contradiction; reflexivity).
    rewrite getattr_insert; [| discriminate
                             | intros C; rewrite <- C in Hn; simpl in Hn;
                               repeat destruct Hn as [Hn|Hn]; try discriminate Hn; contradiction
                             | intros fld Hf; congruence].
    rewrite (combine_get _ _ _ n Hnf2 E0) by (simpl in Hn |- *; tauto).
    apply (getattr_models_swap _ ms); [exact Hm1| |
      intros C; rewrite C in Hnd; simpl in Hnd;
      repeat destruct Hnd as [Hnd|Hnd]; try discriminate Hnd; contradiction | exact Hp].
    pose proof (proj1 (forallb_forall _ _) Hnf' n Hnd) as Ho.
    pose proof (proj1 (List.Forall_forall _ _) Hd n Hnd) as Hk.
    cbv beta in Ho, Hk. destruct (owner n ms) eqn:Eo; [discriminate|].
    rewrite !find_param_none; auto. now apply owner_assoc_set_none.
Qed.

(** Extra X5. When the colour and spatial models are both dirty and the background
    has one entry or one per object, a successful [sync_params] gives [u]
    and [p] one entry per catalog object. *)
Theorem sync_params_shapes (e e1 : engine) b :
  names_free e = true -> flag e "color" = Ok true -> flag e "spatial" = Ok true ->
  getattr_arr e "b" = Ok b -> (length b = 1 \/ length b = length catalog) ->
  sync e = Ok e1 ->
  exists u p, getattr_arr e1 "u" = Ok u /\ getattr_arr e1 "p" = Ok p /\
    length u = length catalog /\ length p = length catalog.
Proof.
  intros Hnf Hc Hs Hb Hlb H. unfold sync_params in H.
  peel H x. peel H e2. peel H e3. peel H e4. unfold reset_sync in H. peel H fs.
  injection H as <-.
  (* the colour block *)
  unfold sync_color in E0. rewrite Hc in E0. cbn [rbind] in E0. peel_all E0.
  subst_setattrs.
  match goal with E : calc_signal_color _ _ _ _ _ = Ok _ |- _ =>
    unfold calc_signal_color in E; peel E cps; injection E as <- end.
  (* the spatial block *)
  unfold sync_spatial in E1.
  rewrite (flag_eq _ e) in E1 by (rewrite !flags_of_insert by discriminate; reflexivity).
  rewrite Hs in E1. cbn [rbind] in E1. peel E1 r.
  match goal with E : calc_signal_spatial _ _ _ _ _ _ _ _ _ = Ok _ |- _ =>
    unfold calc_signal_spatial in E; peel_all E; injection E as <- end.
  subst_setattrs.
  match goal with E : getattr_arr _ "surface_intensity_object" = Ok _ |- _ =>
    rewrite getattr_arr_insert_eq in E by reflexivity; injection E as <- end.
  cbn [fst snd] in *. subst_setattrs.
  set (e3 := <["u_spatial" := _]> _) in E2.
  assert (Hnf3 : names_free e3 = true)
    by (unfold e3; rewrite !names_free_insert by discriminate; exact Hnf).
  (* the combination *)
  destruct (combine_signal _ _ Hnf3 E2)
    as (us' & uc' & sis & obs' & so & u & w & Hus & Huc & _ & _ & _ & Hu & _ & Hrel).
  unfold e3 in Hus. rewrite getattr_arr_insert_eq in Hus by reflexivity. injection Hus as <-.
  unfold e3 in Huc. rewrite !getattr_arr_insert in Huc by key_ne.
  rewrite getattr_arr_insert_eq in Huc by reflexivity. injection Huc as <-.
  assert (Hlu : length u = length catalog).
  { destruct so; destruct Hrel as [Hrel _].
    - subst u. apply length_map.
    - eapply bcast_len_n; [apply length_map | right; apply length_map | exact Hrel]. }
  destruct (combine_p _ _ _ E2) as (ex & r0 & u0 & b0 & den & p & Hr0 & Hu0 & Hb0 & Hden & Hp & He4).
  subst e4.
  assert (Hu0' : u0 = u).
  { rewrite lookup_insert_ne in Hu by discriminate.
    unfold getattr_arr in Hu0.
    rewrite (getattr_prop_lookup _ "u" "_u" (VArr u)) in Hu0 by (reflexivity || exact Hu).
    cbn [rbind arr_of] in Hu0. congruence. }
  subst u0.
  assert (Hb0' : b0 = b).
  { pose proof (combine_get _ _ _ "b" Hnf3 E2 ltac:(in_derived)) as G.
    rewrite getattr_insert in G by key_ne.
    unfold getattr_arr in Hb0. rewrite G in Hb0. unfold e3 in Hb0.
    rewrite !getattr_insert in Hb0 by key_ne. unfold getattr_arr in Hb. congruence. }
  subst b0.
  assert (Hld : length den = length catalog).
  { eapply bcast_len_n; [rewrite length_map; exact Hlu | exact Hlb | exact Hden]. }
  exists u, p. split; [|split; [|split]].
  - rewrite !getattr_arr_insert by key_ne. exact Hu0.
  - rewrite getattr_arr_insert by key_ne. now apply getattr_arr_prop_insert.
  - exact Hlu.
  - eapply bcast_len_n; [rewrite length_map; exact Hlu | right; exact Hld | exact Hp].
Qed.

End ExtraEngine.

Section Skips.

Context {Obj Pix Pt : Type}.
Context (catalog : list Obj) (pixels_interior : list Pix).
Context (pix_lonlat : Pix -> Pt) (obj_lonlat : Obj -> Pt) (area_pixel : fl).

(** Extra X4. A clean sub-model is not consulted: with the spatial flag clear the
    kernel is never evaluated, with the colour flag clear the isochrone is
    never evaluated. *)
Theorem sync_params_skips_clean (e : engine) kernel_pdf kernel_pdf' isochrone_pdf isochrone_pdf'
    obsfrac obsfrac' :
  (names_free e = true -> flag e "spatial" = Ok false ->
   sync_params Obj Pix Pt catalog pixels_interior pix_lonlat obj_lonlat area_pixel
     kernel_pdf isochrone_pdf obsfrac e =
   sync_params Obj Pix Pt catalog pixels_interior pix_lonlat obj_lonlat area_pixel
     kernel_pdf' isochrone_pdf obsfrac e) /\
  (flag e "color" = Ok false ->
   sync_params Obj Pix Pt catalog pixels_interior pix_lonlat obj_lonlat area_pixel
     kernel_pdf isochrone_pdf obsfrac e =
   sync_params Obj Pix Pt catalog pixels_interior pix_lonlat obj_lonlat area_pixel
     kernel_pdf isochrone_pdf' obsfrac' e).
Proof.
  split.
  - intros Hnf Hs. unfold sync_params.
    destruct (flag e "richness"); cbn [rbind]; [|reflexivity].
    destruct (sync_color Obj catalog isochrone_pdf obsfrac e) as [e2|] eqn:Ec;
      cbn [rbind]; [|reflexivity].
    destruct (sync_color_frame catalog isochrone_pdf obsfrac _ _ Hnf Ec) as (_ & Hf & _).
    unfold sync_spatial. rewrite (flag_eq e2 e "spatial" Hf), Hs. reflexivity.
  - intros Hc. unfold sync_params, sync_color. rewrite Hc. reflexivity.
Qed.

End Skips.

Lemma setattr_unowned_ok (e : engine) ms n v :
  models_of e = Ok ms -> owner n ms = None -> read_only n = false ->
  setattr e n v = Ok (<[n := v]> e).
Proof. intros Hm Ho Hr. unfold setattr. rewrite Hm. cbn [rbind]. now rewrite Ho, Hr. Qed.

Section Init.

Context {Obj : Type} (catalog : list Obj) (area_pixel : fl) (take2D : Obj -> fl).
Context (annulus_density : fl) (ln_pos : Q -> Q).

Local Abbreviation init' := (init Obj catalog area_pixel take2D annulus_density).

Lemma init_owner cps sps n :
  (forall n, In n init_names -> mem_key n cps = false /\ mem_key n sps = false) ->
  In n init_names ->
  owner n [("richness", richness_params); ("color", cps); ("spatial", sps)] = None.
Proof.
  intros Hf Hn. destruct (Hf n Hn) as [A B]. cbn [owner]. rewrite A, B.
  unfold init_names in Hn. simpl in Hn.
  repeat destruct Hn as [<-|Hn]; try contradiction; reflexivity.
Qed.

(** Extra X11. A fresh likelihood has every dirty flag set, the three sub-models in
    order, the background [b] from the colour-magnitude density (or the
    flat annulus density when [spatial_only]), and no [p] yet, so calling
    it raises [AttributeError]; asking for both [spatial_only] and
    [color_only] raises [ValueError]. *)
Theorem init_state cps sps dm :
  (forall n, In n init_names -> mem_key n cps = false /\ mem_key n sps = false) ->
  init' cps sps dm true true = Err ValueError /\
  forall so co e, init' cps sps dm so co = Ok e ->
    so && co = false /\
    flags_of e = Ok [("richness", true); ("color", true); ("spatial", true)] /\
    models_of e = Ok [("richness", richness_params); ("color", cps); ("spatial", sps)] /\
    getattr_arr e "b" =
      Ok (if so then [fmul annulus_density area_pixel] else map take2D catalog) /\
    call ln_pos e = Err AttributeError.
Proof.
  intros Hf.
  set (ms3 := [("richness", richness_params); ("color", cps); ("spatial", sps)]).
  assert (Ho : forall n, In n init_names -> owner n ms3 = None) by (intros; now apply init_owner).
  assert (Hm0 : models_of ({[ "models" := VModels ms3 ]} : engine) = Ok ms3)
    by (unfold models_of; now rewrite lookup_singleton_eq).
  assert (Hstep : forall so co, exists e4,
    init' cps sps dm so co =
      (if so && co then Err ValueError else
         calc_background Obj catalog area_pixel take2D annulus_density e4) /\
    e4 = <["color_only" := VBool co]> (<["spatial_only" := VBool so]>
           (<["delta_mag" := VNum dm]> (<["_sync" := VFlags (map (fun kp => (kp.1, true)) ms3)]>
              {[ "models" := VModels ms3 ]})))).
  { intros so co. eexists. split; [|reflexivity]. unfold init. fold ms3.
    rewrite (setattr_unowned_ok _ ms3) by (auto; apply Ho; simpl; tauto). cbn [rbind].
    rewrite (setattr_unowned_ok _ ms3)
      by (rewrite ?models_of_insert by discriminate; auto; apply Ho; simpl; tauto).
    cbn [rbind].
    rewrite (setattr_unowned_ok _ ms3)
      by (rewrite ?models_of_insert by discriminate; auto; apply Ho; simpl; tauto).
    cbn [rbind].
    rewrite (setattr_unowned_ok _ ms3)
      by (rewrite ?models_of_insert by discriminate; auto; apply Ho; simpl; tauto).
    reflexivity. }
  split.
  - destruct (Hstep true true) as (e4 & -> & _). reflexivity.
  - intros so co e H. destruct (Hstep so co) as (e4 & Heq & He4). rewrite Heq in H.
    destruct (so && co) eqn:Esc; [discriminate|]. split; [reflexivity|].
    assert (Hm4 : models_of e4 = Ok ms3) by (subst e4; rewrite !models_of_insert by discriminate; exact Hm0).
    unfold calc_background in H.
    rewrite (setattr_unowned_ok _ ms3) in H by (auto; apply Ho; simpl; tauto). cbn [rbind] in H.
    unfold getattr at 1 in H. cbn [prop_field String.eqb Ascii.eqb Bool.eqb] in H.
    unfold getattr_plain at 1 in H.
    assert (Hso : <["_b" := VArr (map take2D catalog)]> e4 !! "spatial_only" = Some (VBool so))
      by (subst e4; simplify_map_eq; reflexivity).
    rewrite Hso in H. cbn [rbind truthy] in H.
    assert (He : exists bv, e = <["_b" := VArr bv]> e4 /\
                  bv = if so then [fmul annulus_density area_pixel] else map take2D catalog).
    { destruct so.
      - rewrite (setattr_unowned_ok _ ms3) in H
          by (rewrite ?models_of_insert by discriminate; auto; apply Ho; simpl; tauto).
        injection H as <-. eexists. split; [|reflexivity]. now rewrite insert_insert.
      - injection H as <-. eexists. split; reflexivity. }
    destruct He as (bv & -> & Hbv).
    assert (Hme : models_of (<["_b" := VArr bv]> e4) = Ok ms3)
      by (rewrite models_of_insert by discriminate; exact Hm4).
    split; [|split; [|split]].
    + unfold flags_of, getattr_plain. subst e4. simplify_map_eq. reflexivity.
    + exact Hme.
    + unfold getattr_arr, getattr, getattr_plain. cbn [prop_field String.eqb Ascii.eqb Bool.eqb].
      rewrite lookup_insert_eq. cbn [rbind arr_of]. now rewrite Hbv.
    + unfold call, getattr_arr, getattr. cbn [prop_field String.eqb Ascii.eqb Bool.eqb].
      unfold getattr_plain.
      assert (Hp : <["_b" := VArr bv]> e4 !! "_p" = None) by (subst e4; simplify_map_eq; reflexivity).
      rewrite Hp. unfold getattr_fallback. rewrite Hme. cbn [rbind].
      rewrite !find_param_none by (apply Ho; simpl; tauto). reflexivity.
Qed.

End Init.


Lemma preserves_ret {A} P (a : A) : preserves P (retM a).
Proof. intros s b s' Hs H. apply retM_ok in H as [_ <-]. exact Hs. Qed.

Lemma preserves_lift {A} P (r : result A) : preserves P (liftR r).
Proof. intros s b s' Hs H. apply liftR_ok in H as [_ <-]. exact Hs. Qed.

Lemma preserves_bind {A B} P (m : M A) (k : A -> M B) :
  preserves P m -> (forall a, preserves P (k a)) -> preserves P (bindM m k).
Proof.
  intros Hm Hk s b s' Hs H. apply bindM_ok in H as (a & s1 & H1 & H2).
  exact (Hk a _ _ _ (Hm _ _ _ Hs H1) H2).
Qed.

Lemma evals_ret {A} (a : A) : evals_at_most 0 (retM a).
Proof. intros s b s' H. apply retM_ok in H as [_ <-]. lia. Qed.

Lemma evals_lift {A} (r : result A) : evals_at_most 0 (liftR r).
Proof. intros s b s' H. apply liftR_ok in H as [_ <-]. lia. Qed.

Lemma evals_bind {A B} k1 k2 (m : M A) (f : A -> M B) :
  evals_at_most k1 m -> (forall a, evals_at_most k2 (f a)) -> evals_at_most (k1 + k2) (bindM m f).
Proof.
  intros Hm Hf s b s' H. apply bindM_ok in H as (a & s1 & H1 & H2).
  pose proof (Hm _ _ _ H1). pose proof (Hf a _ _ _ H2). lia.
Qed.

Lemma evals_mono {A} k k' (m : M A) : k <= k' -> evals_at_most k m -> evals_at_most k' m.
Proof. intros Hk Hm s b s' H. pose proof (Hm _ _ _ H). lia. Qed.

Lemma richness_owned_agree (e e' : engine) :
  agree_outside e e' -> richness_owned e' = richness_owned e.
Proof.
  intros A. unfold richness_owned, names_free. rewrite (models_of_agree _ _ A).
  rewrite (A "richness") by not_in. reflexivity.
Qed.

Section ExtraOpt.

Context {Obj Pix Pt : Type}.
Context (catalog : list Obj) (pixels_interior : list Pix).
Context (pix_lonlat : Pix -> Pt) (obj_lonlat : Obj -> Pt) (area_pixel : fl).
Context (kernel_pdf : params -> Pt -> fl) (isochrone_pdf : params -> fl -> Obj -> fl).
Context (isochrone_observableFraction : params -> fl -> list fl).
Context (in_interior : fl -> fl -> bool) (ln_pos : Q -> Q).
Context (vertex_x : list fl -> list fl -> fl).
Context (profileUpperLimit : list fl -> list fl -> fl -> fl).
Context {CI : Type} (confidenceInterval : list fl -> list fl -> fl -> CI).

Local Abbreviation evalat := (eval_at Obj Pix Pt catalog pixels_interior pix_lonlat obj_lonlat
  area_pixel kernel_pdf isochrone_pdf isochrone_observableFraction in_interior ln_pos).
Local Abbreviation evalall := (eval_all Obj Pix Pt catalog pixels_interior pix_lonlat
  obj_lonlat area_pixel kernel_pdf isochrone_pdf isochrone_observableFraction in_interior
  ln_pos).
Local Abbreviation loop := (fit_loop Obj Pix Pt catalog pixels_interior pix_lonlat obj_lonlat
  area_pixel kernel_pdf isochrone_pdf isochrone_observableFraction in_interior ln_pos vertex_x).
Local Abbreviation fit := (fit_richness Obj Pix Pt catalog pixels_interior pix_lonlat
  obj_lonlat area_pixel kernel_pdf isochrone_pdf isochrone_observableFraction in_interior
  ln_pos vertex_x).
Local Abbreviation interval := (richness_interval Obj Pix Pt catalog pixels_interior
  pix_lonlat obj_lonlat area_pixel kernel_pdf isochrone_pdf isochrone_observableFraction
  in_interior ln_pos vertex_x profileUpperLimit CI confidenceInterval).
Local Abbreviation sync := (sync_params Obj Pix Pt catalog pixels_interior pix_lonlat obj_lonlat
                          area_pixel kernel_pdf isochrone_pdf isochrone_observableFraction).

Lemma value_richness (e e' : engine) r l :
  richness_owned e = true -> value Obj Pix Pt catalog pixels_interior pix_lonlat obj_lonlat
    area_pixel kernel_pdf isochrone_pdf isochrone_observableFraction in_interior ln_pos
    e [("richness", VNum r)] = Ok (l, e') ->
  richness_owned e' = true /\ getattr_num e' "richness" = Ok r.
Proof.
  intros Hro H. unfold value in H. peel H e1. peel H e2. peel H l'. injection H as <- <-.
  unfold set_params in E. peel E e3. peel E lon. peel E lat.
  destruct (in_interior lon lat); [|discriminate]. injection E as <-.
  cbn [setattrs] in E2. peel E2 e4. injection E2 as <-.
  unfold richness_owned in Hro. apply andb_true_iff in Hro as [Hro Hown].
  apply andb_true_iff in Hro as [Hnf Hlk].
  destruct (models_of e) as [ms|] eqn:Hm; [|discriminate].
  destruct (owner "richness" ms) as [key|] eqn:Ho; [|discriminate].
  destruct (e !! "richness") eqn:Er; [discriminate|].
  match goal with Hs : setattr _ _ _ = Ok _ |- _ => rename Hs into Hset end.
  unfold setattr in Hset. try rewrite Hm in Hset. cbn [rbind] in Hset. try rewrite Ho in Hset.
  peel Hset fs. cbn in Hset. injection Hset as <-.
  set (W := <["models" := VModels (model_set ms key "richness" r)]>
              (<["_sync" := VFlags (assoc_set key true fs)]> e)) in *.
  assert (HnfW : names_free W = true) by (unfold W; rewrite names_free_owned; auto).
  pose proof (sync_agree catalog pixels_interior pix_lonlat obj_lonlat area_pixel kernel_pdf
                isochrone_pdf isochrone_observableFraction _ _ HnfW E0) as A.
  split.
  - rewrite (richness_owned_agree _ _ A). unfold richness_owned. rewrite HnfW.
    unfold W. rewrite (models_of_owned e ms key "richness" r fs).
    rewrite !lookup_insert_ne by discriminate. rewrite Er. simpl.
    now rewrite owner_set_eq.
  - unfold getattr_num. rewrite (getattr_agree _ _ "richness" A) by not_in.
    unfold getattr, getattr_plain. simpl prop_field. unfold W.
    rewrite !lookup_insert_ne by discriminate. rewrite Er.
    unfold getattr_fallback. rewrite (models_of_owned e ms key "richness" r fs). cbn [rbind].
    now rewrite find_param_set_eq.
Qed.

Lemma eval_at_tracked (s s' : St) r l :
  richness_owned s.1 = true -> evalat r s = Ok (l, s') -> richness_tracked s'.
Proof.
  intros Hro H. unfold eval_at in H. peel H res. injection H as <- <-.
  destruct res as [l' e']. cbn [fst snd].
  destruct (value_richness _ _ _ _ Hro E) as [H1 H2].
  split; [exact H1|]. exists r, l'. split; [apply last_snoc | exact H2].
Qed.

Lemma preserves_eval_at r : preserves richness_tracked (evalat r).
Proof. intros s l s' [Hro _] H. exact (eval_at_tracked _ _ _ _ Hro H). Qed.

Lemma preserves_loop atol maxiter budget : forall it R L,
  preserves richness_tracked (loop atol maxiter budget it R L).
Proof.
  induction budget as [|b IH]; intros it R L; cbn [fit_loop];
    apply preserves_bind;
    try (destruct (flt _ (Fin 0));
         [apply preserves_ret
         | apply preserves_bind; [apply preserves_eval_at|]; intros l;
           apply preserves_bind; [apply preserves_lift|]; intros m; apply preserves_ret]);
    intros [[found R1] L1]; cbv beta iota zeta;
    repeat match goal with |- preserves _ (if ?c then _ else _) => destruct c end;
    try apply preserves_ret; apply IH.
Qed.

Lemma preserves_eval_all rs : preserves richness_tracked (evalall rs).
Proof.
  induction rs as [|r rs IH]; cbn [eval_all].
  - apply preserves_ret.
  - apply preserves_bind; [apply preserves_eval_at|]. intros l.
    apply preserves_bind; [exact IH|]. intros ls. apply preserves_ret.
Qed.

Lemma evals_eval_at r : evals_at_most 1 (evalat r).
Proof.
  intros s l s' H. apply eval_at_trace in H. rewrite H, length_app. simpl. lia.
Qed.

Lemma evals_loop atol maxiter budget : forall it R L,
  evals_at_most (S budget) (loop atol maxiter budget it R L).
Proof.
  induction budget as [|b IH]; intros it R L; cbn [fit_loop];
    change (S ?k) with (1 + k); apply evals_bind;
    try (destruct (flt _ (Fin 0));
         [apply (evals_mono 0); [lia | apply evals_ret]
         | change 1 with (1 + (0 + 0)); apply evals_bind; [apply evals_eval_at|]; intros l;
           apply evals_bind; [apply evals_lift|]; intros m; apply evals_ret]);
    intros [[found R1] L1]; cbv beta iota zeta;
    repeat match goal with |- evals_at_most _ (if ?c then _ else _) => destruct c end;
    try (apply (evals_mono 0); [lia | apply evals_ret]); apply IH.
Qed.

(** Extra X13. After a non-degenerate [fit_richness], the engine's [richness] is the
    richness of the last likelihood evaluation, not the returned
    [richness_max]: the method never restores it. *)
Theorem fit_richness_final_richness atol maxiter (s s' : St) lmax rmax par :
  richness_owned s.1 = true ->
  fit atol maxiter s = Ok ((lmax, rmax, Some par), s') ->
  richness_owned s'.1 = true /\
  exists r l, last s'.2 = Some (r, l) /\ getattr_num s'.1 "richness" = Ok r.
Proof.
  intros Hro H. unfold fit_richness in H. peel H u.
  destruct (existsb isnan u); [discriminate|].
  destruct (negb (existsb nonzero u)); [discriminate|].
  apply bindM_ok in H as (f & s1 & Hf & H). apply liftR_ok in Hf as [Hf <-].
  apply bindM_ok in H as (l0 & s2 & E0 & H).
  pose proof (eval_at_tracked _ _ _ _ Hro E0) as T.
  refine ((_ : preserves richness_tracked _) _ _ _ T H).
  apply preserves_bind; [apply preserves_eval_at|]. intros l1.
  apply preserves_bind; [apply preserves_eval_at|]. intros l2.
  apply preserves_bind; [apply preserves_loop|]. intros [[R L] p].
  apply preserves_bind; [apply preserves_lift|]. intros k. apply preserves_ret.
Qed.

(** Extra X15. A successful [richness_interval] leaves the engine's [richness] at the
    last grid point it evaluated. *)
Theorem richness_interval_final_richness alpha n (s s' : St) ci :
  richness_owned s.1 = true -> interval alpha n s = Ok (ci, s') ->
  richness_owned s'.1 = true /\
  exists r l, last s'.2 = Some (r, l) /\ getattr_num s'.1 "richness" = Ok r.
Proof.
  intros Hro H. unfold richness_interval in H.
  apply bindM_ok in H as ([[lmax rmax] [par|]] & s1 & Hfit & H); cbn beta iota in H;
    [|discriminate H].
  unfold fit_richness in Hfit. peel Hfit u.
  destruct (existsb isnan u); [discriminate|].
  destruct (negb (existsb nonzero u)); [discriminate|].
  apply bindM_ok in Hfit as (f & s2 & Hf & Hfit). apply liftR_ok in Hf as [Hf <-].
  apply bindM_ok in Hfit as (l0 & s3 & E0 & Hfit).
  pose proof (eval_at_tracked _ _ _ _ Hro E0) as T.
  assert (T1 : richness_tracked s1).
  { refine ((_ : preserves richness_tracked _) _ _ _ T Hfit).
    apply preserves_bind; [apply preserves_eval_at|]. intros l1.
    apply preserves_bind; [apply preserves_eval_at|]. intros l2.
    apply preserves_bind; [apply preserves_loop|]. intros [[R L] p].
    apply preserves_bind; [apply preserves_lift|]. intros k. apply preserves_ret. }
  refine ((_ : preserves richness_tracked _) _ _ _ T1 H).
  apply preserves_bind; [apply preserves_lift|]. intros g.
  apply preserves_bind; [apply preserves_lift|]. intros x.
  apply preserves_bind; [apply preserves_eval_all|]. intros ls. apply preserves_ret.
Qed.

(** Extra X14. [fit_richness] evaluates the likelihood at most [maxiter + 4] times:
    three seeds and at most one evaluation per loop iteration. *)
Theorem fit_richness_evaluations atol maxiter (s s' : St) res :
  fit atol maxiter s = Ok (res, s') -> length s'.2 <= length s.2 + (maxiter + 4).
Proof.
  intros H. unfold fit_richness in H. peel H u.
  destruct (existsb isnan u); [injection H as _ <-; lia|].
  destruct (negb (existsb nonzero u)); [injection H as _ <-; lia|].
  refine (evals_mono _ _ _ _ (_ : evals_at_most (0 + (1 + (1 + (1 + (S maxiter + (0 + 0)))))) _)
            _ _ _ H); [lia|].
  apply evals_bind; [apply evals_lift|]. intros f.
  apply evals_bind; [apply evals_eval_at|]. intros l0.
  apply evals_bind; [apply evals_eval_at|]. intros l1.
  apply evals_bind; [apply evals_eval_at|]. intros l2.
  apply evals_bind; [apply evals_loop|]. intros [[R L] p].
  apply evals_bind; [apply evals_lift|]. intros k. apply evals_ret.
Qed.

Lemma sync_idem (e e1 : engine) :
  names_free e = true -> sync e = Ok e1 -> sync e1 = Ok e1.
Proof.
  intros Hnf H. unfold sync_params, reset_sync in H.
  peel H x. peel H e2. peel H e3. peel H e4. peel H fs. injection H as <-.
  destruct (sync_color_frame _ _ _ _ _ Hnf E0) as (Hnf2 & Hf2 & _ & c & Hc).
  destruct (sync_spatial_frame _ _ _ _ _ _ _ Hnf2 E1) as (Hnf3 & Hf3 & _ & d & Hd).
  destruct (combine_frame _ _ _ Hnf3 E2) as (Hnf4 & Hf4 & _).
  assert (Hfs : flags_of e = Ok fs) by congruence.
  unfold sync_params.
  rewrite (flag_reset _ _ _ "richness" _ Hfs E). cbn [rbind].
  unfold sync_color. rewrite (flag_reset _ _ _ "color" _ Hfs Hc). cbn [rbind].
  unfold sync_spatial. rewrite (flag_reset _ _ _ "spatial" _ (eq_trans Hf2 Hfs) Hd).
  cbn [rbind].
  rewrite (combine_idem area_pixel _ _ _ Hnf3 E2). cbn [rbind].
  unfold reset_sync. rewrite flags_of_reset. cbn [rbind].
  rewrite map_reset_idem, insert_insert. reflexivity.
Qed.

(** Extra X12. Calling [value] again with no arguments right after a successful
    [value] returns the same log-likelihood and leaves the engine as it
    is: nothing is dirty and the location is still inside the ROI. *)
Theorem value_repeat (e e1 : engine) kw l :
  names_free e = true -> Forall (fun kv => kv.1 <> "models") kw ->
  value Obj Pix Pt catalog pixels_interior pix_lonlat obj_lonlat area_pixel kernel_pdf
    isochrone_pdf isochrone_observableFraction in_interior ln_pos e kw = Ok (l, e1) ->
  value Obj Pix Pt catalog pixels_interior pix_lonlat obj_lonlat area_pixel kernel_pdf
    isochrone_pdf isochrone_observableFraction in_interior ln_pos e1 [] = Ok (l, e1).
Proof.
  intros Hnf Hkw H. unfold value in H. peel H e2. peel H e3. peel H l'. injection H as <- <-.
  unfold set_params in E. peel E e4. peel E lon. peel E lat.
  destruct (in_interior lon lat) eqn:Ein; [|discriminate]. injection E as <-.
  pose proof (setattrs_names_free _ _ _ Hnf Hkw E2) as Hnf2.
  pose proof (sync_agree catalog pixels_interior pix_lonlat obj_lonlat area_pixel kernel_pdf
                isochrone_pdf isochrone_observableFraction _ _ Hnf2 E0) as A.
  unfold value, set_params. cbn [setattrs rbind].
  unfold getattr_num at 1 2. rewrite !(getattr_agree _ _ _ A) by not_in.
  fold (getattr_num e4 "lon") (getattr_num e4 "lat").
  rewrite E3, E4. cbn [rbind]. rewrite Ein.
  cbn [rbind]. rewrite (sync_idem _ _ Hnf2 E0). cbn [rbind]. now rewrite E1.
Qed.

End ExtraOpt.

(* ------------------------------------------------------------------ *)
(** ** The demo engine: witnesses and counterexamples *)

Import Demo.

Ltac vmr := match goal with |- _ = ?b => vm_cast_no_check (@eq_refl _ b) end.
Ltac splits := repeat match goal with |- _ /\ _ => split end.

(** Witness for [sync_params_mixture]: the demo engine synchronises. *)
Lemma sync_params_mixture_witness :
  sync_d kernel_pdf engine0 = Ok engine1 /\
  exists r u b p,
    getattr_num engine1 "richness" = Ok r /\ getattr_arr engine1 "u" = Ok u /\
    getattr_arr engine1 "b" = Ok b /\ getattr_arr engine1 "p" = Ok p /\
    forall i, i < length p ->
      nth i p NaN = fdiv (fmul r (at_bcast u i)) (fadd (fmul r (at_bcast u i)) (at_bcast b i)) /\
      (fin_nonneg r && fin_nonneg (at_bcast u i) && fin_nonneg (at_bcast b i) = true ->
        (flt (Fin 0) (at_bcast b i) = true ->
         flt (fadd (fmul r (at_bcast u i)) (at_bcast b i)) (Fin dbl_bound) = true ->
           fle (Fin 0) (nth i p NaN) = true /\ fle (nth i p NaN) (Fin 1) = true) /\
        (feq (fadd (fmul r (at_bcast u i)) (at_bcast b i)) (Fin 0) = true ->
           nth i p NaN = NaN)).
Proof.
  split; [vmr|].
  apply (sync_params_mixture catalog pixels_interior pix_lonlat obj_lonlat area_pixel
           kernel_pdf isochrone_pdf isochrone_observableFraction engine0 engine1).
  vmr.
Defined.

(** Counterexample to C1 as stated: with [richness = 1], [u = 0] and
    [b = 0] the denominator is zero and [p] is NaN, which is not in [0, 1]. *)
Lemma sync_params_mixture_nan :
  sync_d kernel_zero
    (ok_or_empty (init nat catalog area_pixel take2D_zero annulus_density color_params
                    spatial_params (Fin 0) false false)) = Ok engine_zero /\
  getattr_num engine_zero "richness" = Ok (Fin 1) /\
  getattr_arr engine_zero "u" = Ok [Fin 0] /\ getattr_arr engine_zero "b" = Ok [Fin 0] /\
  getattr_arr engine_zero "p" = Ok [NaN] /\ fle (Fin 0) NaN = false.
Proof. splits; vmr. Qed.

(** Witness for [call_after_sync]. *)
Lemma call_after_sync_witness :
  names_free engine0 = true /\ sync_d kernel_pdf engine0 = Ok engine1 /\
  exists p f r,
    getattr_arr engine1 "p" = Ok p /\ getattr_num engine1 "f" = Ok f /\
    getattr_num engine1 "richness" = Ok r /\
    call ln_pos engine1 = Ok (fsub (fneg (fsum (map (np_log ln_pos) (map (fsub (Fin 1)) p))))
                                   (fmul f r)).
Proof.
  split; [vmr|]. split; [vmr|].
  apply (call_after_sync catalog pixels_interior pix_lonlat obj_lonlat area_pixel
           kernel_pdf isochrone_pdf isochrone_observableFraction ln_pos engine0 engine1);
    vm_compute; reflexivity.
Defined.

(** Witness for [richness_write_isolated]: sync, write [richness = 2],
    sync again. *)
Lemma richness_write_isolated_witness :
  names_free engine0 = true /\ models_of engine0 = Ok models /\
  owner "richness" models = Some "richness" /\
  sync_d kernel_pdf engine0 = Ok engine1 /\
  setattr engine1 "richness" (VNum (Fin 2)) = Ok engine2 /\
  sync_d kernel_pdf engine2 = Ok engine3 /\
  getattr engine3 "u_color" = getattr engine1 "u_color" /\
  getattr engine3 "u_spatial" = getattr engine1 "u_spatial" /\
  getattr engine3 "b" = getattr engine1 "b" /\ getattr engine3 "f" = getattr engine1 "f".
Proof.
  do 6 (split; [vmr|]).
  apply (richness_write_isolated catalog pixels_interior pix_lonlat obj_lonlat area_pixel
           kernel_pdf isochrone_pdf isochrone_observableFraction
           engine0 engine1 engine2 engine3 models (Fin 2)); vmr.
Defined.

(** Counterexample to C3 as stated: in a freshly built engine the colour
    and spatial flags are still set, so writing only [richness] and
    synchronising creates [u_color] and [u_spatial], which did not exist
    before; [b], set by [__init__], keeps its value. *)
Lemma richness_write_fresh_engine :
  getattr engine0 "u_color" = Err AttributeError /\
  getattr engine0 "u_spatial" = Err AttributeError /\
  getattr engine0 "b" = Ok (VArr [Fin 1]) /\
  (match setattr engine0 "richness" (VNum (Fin 2)) with
   | Ok e =>
       match sync_d kernel_pdf e with
       | Ok e' => Ok (getattr e' "u_color", getattr e' "u_spatial", getattr e' "b")
       | Err x => Err x
       end
   | Err x => Err x
   end) = Ok (Ok (VArr [Fin 1]), Ok (VArr [Fin (1 # 2)]), Ok (VArr [Fin 1])).
Proof. splits; vmr. Qed.

(** Witness for [sync_params_idempotent]. *)
Lemma sync_params_idempotent_witness :
  names_free engine0 = true /\ sync_d kernel_pdf engine0 = Ok engine1 /\
  sync_d kernel_pdf engine1 = Ok engine1 /\
  exists fs, flags_of engine1 = Ok fs /\ Forall (fun kv => kv.2 = false) fs.
Proof.
  split; [vmr|]. split; [vmr|].
  apply (sync_params_idempotent catalog pixels_interior pix_lonlat obj_lonlat area_pixel
           kernel_pdf isochrone_pdf isochrone_observableFraction engine0 engine1);
    vm_compute; reflexivity.
Defined.

(** Witness for [setattr_unowned] at the read-only property [u]. *)
Lemma setattr_unowned_witness :
  models_of engine0 = Ok models /\ owner "u" models = None /\
  setattr engine0 "u" (VArr [Fin 1]) =
    if read_only "u" then Err AttributeError else Ok (<["u" := VArr [Fin 1]]> engine0).
Proof.
  split; [vmr|]. split; [vmr|].
  apply (setattr_unowned engine0 models); vmr.
Defined.

(** Counterexample to C5 as stated: [foo] is neither a sub-model parameter
    nor an engine field, yet setting it succeeds and creates the field. *)
Lemma setattr_unknown_name_created :
  engine0 !! "foo" = None /\ models_of engine0 = Ok models /\ owner "foo" models = None /\
  setattr engine0 "foo" (VNum (Fin 1)) = Ok (<["foo" := VNum (Fin 1)]> engine0).
Proof. splits; vmr. Qed.

(** Witness for [fit_richness_degenerate]: [u] is all zero when the kernel
    misses the object. *)
Lemma fit_richness_degenerate_witness :
  getattr_arr engine_zero "u" = Ok [Fin 0] /\
  (existsb isnan [Fin 0] || negb (existsb nonzero [Fin 0])) = true /\
  fit_d kernel_zero vertex_x atol_default maxiter_default (engine_zero, []) =
    Ok ((Fin 0, Fin 0, None), (engine_zero, [])).
Proof.
  split; [vmr|]. split; [vmr|].
  apply (fit_richness_degenerate catalog pixels_interior pix_lonlat obj_lonlat area_pixel
           kernel_zero isochrone_pdf isochrone_observableFraction in_interior ln_pos vertex_x
           atol_default maxiter_default (engine_zero, []) [Fin 0]);
    vmr.
Defined.

(** Witness for [fit_richness_best]. *)
Lemma fit_richness_best_witness :
  fit_d kernel_pdf vertex_x atol_default maxiter_default (engine1, []) =
    Ok ((fit1_loglike, fit1_richness, Some fit1_parabola), fit1_state) /\
  exists f l0 l1 l2 R2 L2,
    getattr_num engine1 "f" = Ok f /\ length R2 = length L2 /\
    fit1_state.2 = (zip ([Fin 0; fdiv (Fin 1) f; fdiv (Fin 10) f] ++ R2)
                        ([l0; l1; l2] ++ L2))%list /\
    In (fit1_richness, fit1_loglike)
       (zip ([Fin 0; fdiv (Fin 1) f; fdiv (Fin 10) f] ++ R2) ([l0; l1; l2] ++ L2))%list /\
    (Forall (fun l => isnan l = false) ([l0; l1; l2] ++ L2)%list ->
     Forall (fun l => fle l fit1_loglike = true) ([l0; l1; l2] ++ L2)%list).
Proof.
  split; [vmr|].
  apply (fit_richness_best catalog pixels_interior pix_lonlat obj_lonlat area_pixel
           kernel_pdf isochrone_pdf isochrone_observableFraction in_interior ln_pos vertex_x
           atol_default maxiter_default (engine1, []) fit1_state fit1_loglike fit1_richness
           fit1_parabola).
  vmr.
Defined.

(** Counterexample to C7 as stated: with no background at the object the
    seed at richness 0 has log-likelihood NaN ([0/0] in [p]); [numpy.argmax]
    picks that NaN, which is not [>=] the seed value [+inf] at [1/f]. *)
Lemma fit_richness_nan_seed :
  fit_d kernel_pdf vertex_x atol_default maxiter_default (engine_nobg, []) =
    Ok ((NaN, Fin 0, Some fit_nobg_parabola), fit_nobg_state) /\
  fit_nobg_state.2 = [(Fin 0, NaN); (Fin 2, PInf); (Fin 20, PInf)] /\
  fle PInf NaN = false.
Proof. splits; vmr. Qed.

(** Claim C8 (code bug). The loop tests [iteration > maxiter] after the
    increment, so its body can run [maxiter + 1] times: with the default
    cap of 50 and a vertex that never turns negative nor converges, the
    likelihood is evaluated at the 3 seeds and then 51 more times. *)
Theorem fit_richness_iterations_default :
  match fit_d kernel_pdf vertex_grow atol_default maxiter_default (engine1, []) with
  | Ok (_, s) => length s.2
  | Err _ => 0%nat
  end = (3 + S maxiter_default)%nat.
Proof. vmr. Qed.

(** Witness for [richness_interval_grid] with three grid points. *)
Lemma richness_interval_grid_witness :
  interval_d kernel_pdf vertex_x (Fin (6827 # 10000)) 3 (engine1, []) =
    Ok (interval3_ci, interval3_state) /\
  exists lmax rmax par s1 g ls,
    fit_d kernel_pdf vertex_x atol_default maxiter_default (engine1, []) =
      Ok ((lmax, rmax, Some par), s1) /\
    let range := fsub (profileUpperLimit (par_x par) (par_y par) (Fin 25)) rmax in
    let grid := if flt (Fin 0) (hd NaN g) then Fin 0 :: g else g in
    linspace (py_max (Fin 0) (fsub rmax range)) (fadd rmax range) 3 = Ok g /\ g <> [] /\
    length ls = length grid /\ interval3_state.2 = (s1.2 ++ zip grid ls)%list /\
    interval3_ci = confidenceInterval grid (map (fmul (Fin 2)) ls) (Fin (6827 # 10000)) /\
    ((1 <= 3)%Z -> isfinite rmax = true -> isfinite range = true ->
       length g = Z.to_nat 3 /\ exists x, In x grid /\ feq x (Fin 0) = true).
Proof.
  split; [vmr|].
  apply (richness_interval_grid catalog pixels_interior pix_lonlat obj_lonlat area_pixel
           kernel_pdf isochrone_pdf isochrone_observableFraction in_interior ln_pos vertex_x
           profileUpperLimit confidenceInterval (Fin (6827 # 10000)) 3 (engine1, [])
           interval3_state interval3_ci).
  vmr.
Defined.

(** Counterexample to C9 as stated: with [n_pdf_points = 0] the grid is
    empty and [richness[0]] raises [IndexError]; nothing is sampled. *)
Lemma richness_interval_empty_grid :
  interval_d kernel_pdf vertex_x (Fin (6827 # 10000)) 0 (engine1, []) = Err IndexError.
Proof. vmr. Qed.

(** Witness for [richness_interval_degenerate]. *)
Lemma richness_interval_degenerate_witness :
  getattr_arr engine_zero "u" = Ok [Fin 0] /\
  (existsb isnan [Fin 0] || negb (existsb nonzero [Fin 0])) = true /\
  interval_d kernel_zero vertex_x (Fin (6827 # 10000)) 100 (engine_zero, []) =
    Err AttributeError.
Proof.
  split; [vmr|]. split; [vmr|].
  apply (richness_interval_degenerate catalog pixels_interior pix_lonlat obj_lonlat
           area_pixel kernel_zero isochrone_pdf isochrone_observableFraction in_interior
           ln_pos vertex_x profileUpperLimit confidenceInterval (Fin (6827 # 10000)) 100
           (engine_zero, []) [Fin 0]); vmr.
Defined.

(* ------------------------------------------------------------------ *)
(** ** Witnesses for the further properties *)

(** Witness for [sync_params_frame]. *)
Lemma sync_params_frame_witness :
  names_free engine0 = true /\ sync_d kernel_pdf engine0 = Ok engine1 /\
  models_of engine1 = models_of engine0 /\
  (exists fs, flags_of engine0 = Ok fs /\
              flags_of engine1 = Ok (map (fun kv => (kv.1, false)) fs)) /\
  forall n, ~ In n ("u" :: "p" :: "f" :: sync_written) -> getattr engine1 n = getattr engine0 n.
Proof.
  split; [vmr|]. split; [vmr|].
  apply (sync_params_frame catalog pixels_interior pix_lonlat obj_lonlat area_pixel kernel_pdf
           isochrone_pdf isochrone_observableFraction engine0 engine1); vmr.
Defined.

(** Witness for [sync_params_signal]. *)
Lemma sync_params_signal_witness :
  names_free engine0 = true /\ sync_d kernel_pdf engine0 = Ok engine1 /\
  exists us uc sis obs so u w,
    getattr_arr engine1 "u_spatial" = Ok us /\ getattr_arr engine1 "u_color" = Ok uc /\
    getattr_arr engine1 "surface_intensity_sparse" = Ok sis /\
    getattr_arr engine1 "observable_fraction" = Ok obs /\
    rbind (getattr engine1 "spatial_only") truthy = Ok so /\
    getattr_arr engine1 "u" = Ok u /\ getattr_num engine1 "f" = Ok (fmul area_pixel (fsum w)) /\
    (if so then u = us /\
       bcast fmul sis (map (fun x => if flt (Fin 0) x then Fin 1 else Fin 0) obs) = Ok w
     else bcast fmul us uc = Ok u /\ bcast fmul sis obs = Ok w).
Proof.
  split; [vmr|]. split; [vmr|].
  apply (sync_params_signal catalog pixels_interior pix_lonlat obj_lonlat area_pixel kernel_pdf
           isochrone_pdf isochrone_observableFraction engine0 engine1); vmr.
Defined.

(** Witness for [sync_params_no_observable_fraction]: the fresh engine with
    an isochrone whose observable fraction is zero. *)
Lemma sync_params_no_observable_fraction_witness :
  flag engine0 "richness" = Ok true /\ flag engine0 "color" = Ok true /\
  getattr_num engine0 "distance_modulus" = Ok (Fin 18) /\
  model_params engine0 "color" = Ok color_params /\
  flt (Fin 0) (fsum (obsfrac_zero color_params (Fin 18))) = false /\
  sync_params nat nat unit catalog pixels_interior pix_lonlat obj_lonlat area_pixel kernel_pdf
    isochrone_pdf obsfrac_zero engine0 = Err ValueError.
Proof.
  do 5 (split; [vmr|]).
  apply (sync_params_no_observable_fraction catalog pixels_interior pix_lonlat obj_lonlat
           area_pixel kernel_pdf isochrone_pdf obsfrac_zero engine0 true (Fin 18) color_params);
    vmr.
Defined.

(** Witness for [sync_params_skips_clean]: after one synchronisation both
    flags are clear, so another kernel or isochrone gives the same result. *)
Lemma sync_params_skips_clean_witness :
  names_free engine1 = true /\ flag engine1 "spatial" = Ok false /\
  flag engine1 "color" = Ok false /\
  sync_params nat nat unit catalog pixels_interior pix_lonlat obj_lonlat area_pixel kernel_pdf
    isochrone_pdf isochrone_observableFraction engine1 =
  sync_params nat nat unit catalog pixels_interior pix_lonlat obj_lonlat area_pixel kernel_zero
    isochrone_pdf isochrone_observableFraction engine1 /\
  sync_params nat nat unit catalog pixels_interior pix_lonlat obj_lonlat area_pixel kernel_pdf
    isochrone_pdf isochrone_observableFraction engine1 =
  sync_params nat nat unit catalog pixels_interior pix_lonlat obj_lonlat area_pixel kernel_pdf
    isochrone_pdf obsfrac_zero engine1.
Proof.
  pose proof (sync_params_skips_clean catalog pixels_interior pix_lonlat obj_lonlat area_pixel
                engine1 kernel_pdf kernel_zero isochrone_pdf isochrone_pdf
                isochrone_observableFraction obsfrac_zero) as [T1 T2].
  split; [vmr|]. split; [vmr|]. split; [vmr|].
  split; [apply T1; vmr | apply T2; vmr].
Defined.

(** Witness for [sync_params_shapes]: the fresh engine, one object. *)
Lemma sync_params_shapes_witness :
  names_free engine0 = true /\ flag engine0 "color" = Ok true /\
  flag engine0 "spatial" = Ok true /\ getattr_arr engine0 "b" = Ok [Fin 1] /\
  (length [Fin 1] = 1 \/ length [Fin 1] = length catalog) /\
  sync_d kernel_pdf engine0 = Ok engine1 /\
  exists u p, getattr_arr engine1 "u" = Ok u /\ getattr_arr engine1 "p" = Ok p /\
    length u = length catalog /\ length p = length catalog.
Proof.
  do 4 (split; [vmr|]). split; [left; reflexivity|]. split; [vmr|].
  apply (sync_params_shapes catalog pixels_interior pix_lonlat obj_lonlat area_pixel kernel_pdf
           isochrone_pdf isochrone_observableFraction engine0 engine1 [Fin 1]);
    first [vmr | left; reflexivity].
Defined.

(** Witness for [setattr_roundtrip]: writing [richness = 2]. *)
Lemma setattr_roundtrip_witness :
  prop_field "richness" = None /\ engine1 !! "richness" = None /\
  setattr engine1 "richness" (VNum (Fin 2)) = Ok engine2 /\
  getattr engine2 "richness" = Ok (VNum (Fin 2)) /\
  forall n', n' <> "richness" -> n' <> "models" -> n' <> "_sync" -> prop_field n' = None ->
    getattr engine2 n' = getattr engine1 n'.
Proof.
  do 3 (split; [vmr|]).
  apply (setattr_roundtrip engine1 engine2 "richness" (Fin 2)); vmr.
Defined.

(** Witness for [setattr_marks_owner]: writing [richness] leaves the
    colour flag as it was. *)
Lemma setattr_marks_owner_witness :
  models_of engine1 = Ok models /\ "richness" <> "_sync" /\ "richness" <> "models" /\
  setattr engine1 "richness" (VNum (Fin 2)) = Ok engine2 /\
  flag engine2 "color" = match owner "richness" models with
                         | Some key => if String.eqb "color" key then Ok true
                                       else flag engine1 "color"
                         | None => flag engine1 "color"
                         end.
Proof.
  split; [vmr|]. split; [discriminate|]. split; [discriminate|]. split; [vmr|].
  apply (setattr_marks_owner engine1 engine2 models "richness" (VNum (Fin 2)) "color");
    first [vmr | discriminate].
Defined.

(** Witness for [set_model_update]: replacing the colour model. *)
Lemma set_model_update_witness :
  set_model engine1 "color" color_params2 = Ok engine_cm /\
  model_params engine_cm "color" = Ok color_params2 /\
  (forall k q, k <> "color" -> model_params engine1 k = Ok q -> model_params engine_cm k = Ok q) /\
  (forall a, a <> "models" -> engine_cm !! a = engine1 !! a).
Proof.
  split; [vmr|].
  apply (set_model_update engine1 engine_cm "color" color_params2); vmr.
Defined.

(** Witness for [set_model_stale]: the colour model is replaced after the
    first synchronisation. *)
Lemma set_model_stale_witness :
  names_free engine0 = true /\ sync_d kernel_pdf engine0 = Ok engine1 /\
  set_model engine1 "color" color_params2 = Ok engine_cm /\
  Forall (fun n => mem_key n color_params2 = false) derived_names /\
  sync_d kernel_pdf engine_cm = Ok engine_cm1 /\
  model_params engine_cm1 "color" = Ok color_params2 /\
  forall n, In n ["observable_fraction"; "u_color"; "u_spatial"] ->
    getattr engine_cm1 n = getattr engine1 n.
Proof.
  assert (Hd : Forall (fun n => mem_key n color_params2 = false) derived_names).
  { unfold derived_names. repeat (constructor; [vm_compute; reflexivity|]). constructor. }
  split; [vmr|]. split; [vmr|]. split; [vmr|]. split; [exact Hd|]. split; [vmr|].
  apply (set_model_stale catalog pixels_interior pix_lonlat obj_lonlat area_pixel kernel_pdf
           isochrone_pdf isochrone_observableFraction engine0 engine1 engine_cm engine_cm1
           color_params2); first [vmr | exact Hd].
Defined.

(** Witness for [params_prop_lookup]. *)
Lemma params_prop_lookup_witness :
  models_of engine0 = Ok models /\ Forall (fun kp => NoDup kp.2.*1) models /\
  params_prop engine0 = Ok params0 /\
  NoDup params0.*1 /\ assoc "lon" params0 = find_param "lon" (rev models) /\
  (engine0 !! "lon" = None -> prop_field "lon" = None ->
   getattr engine0 "lon" = match find_param "lon" models with
                           | Some v => Ok (VNum v)
                           | None => Err AttributeError
                           end).
Proof.
  assert (Hn : Forall (fun kp => NoDup kp.2.*1) models).
  { unfold models, color_params, spatial_params.
    repeat (constructor;
      [cbv beta; simpl;
       repeat (apply NoDup_cons; split;
               [rewrite list_elem_of_In; simpl; intuition discriminate|]);
       apply NoDup_nil; exact I|]).
    constructor. }
  split; [vmr|]. split; [exact Hn|]. split; [vmr|].
  apply (params_prop_lookup engine0 models params0 "lon"); first [vmr | exact Hn].
Defined.

(** Witness for [init_state]: the demo sub-models. *)
Lemma init_state_witness :
  (forall n, In n init_names ->
     mem_key n color_params = false /\ mem_key n spatial_params = false) /\
  init nat catalog area_pixel take2D annulus_density color_params spatial_params (Fin 0)
    true true = Err ValueError /\
  forall so co e,
    init nat catalog area_pixel take2D annulus_density color_params spatial_params (Fin 0)
      so co = Ok e ->
    so && co = false /\
    flags_of e = Ok [("richness", true); ("color", true); ("spatial", true)] /\
    models_of e = Ok [("richness", richness_params); ("color", color_params);
                      ("spatial", spatial_params)] /\
    getattr_arr e "b" =
      Ok (if so then [fmul annulus_density area_pixel] else map take2D catalog) /\
    call ln_pos e = Err AttributeError.
Proof.
  assert (Hf : forall n, In n init_names ->
                 mem_key n color_params = false /\ mem_key n spatial_params = false).
  { intros n Hn. unfold init_names in Hn. simpl in Hn.
    repeat destruct Hn as [<-|Hn]; try contradiction; split; vm_compute; reflexivity. }
  split; [exact Hf|].
  exact (init_state catalog area_pixel take2D annulus_density ln_pos color_params
           spatial_params (Fin 0) Hf).
Defined.

(** Witness for [value_repeat]: evaluate at [richness = 2], then again. *)
Lemma value_repeat_witness :
  names_free engine0 = true /\
  Forall (fun kv => kv.1 <> "models") [("richness", VNum (Fin 2))] /\
  value_d engine0 [("richness", VNum (Fin 2))] = Ok (value1_loglike, value1_engine) /\
  value_d value1_engine [] = Ok (value1_loglike, value1_engine).
Proof.
  assert (Hk : Forall (fun kv => kv.1 <> "models") [("richness", VNum (Fin 2))]).
  { constructor; [simpl; discriminate | constructor]. }
  split; [vmr|]. split; [exact Hk|]. split; [vmr|].
  apply (value_repeat catalog pixels_interior pix_lonlat obj_lonlat area_pixel kernel_pdf
           isochrone_pdf isochrone_observableFraction in_interior ln_pos engine0 value1_engine
           [("richness", VNum (Fin 2))] value1_loglike); first [vmr | exact Hk].
Defined.

(** Witness for [fit_richness_final_richness]. *)
Lemma fit_richness_final_richness_witness :
  richness_owned engine1 = true /\
  fit_d kernel_pdf vertex_x atol_default maxiter_default (engine1, []) =
    Ok ((fit1_loglike, fit1_richness, Some fit1_parabola), fit1_state) /\
  richness_owned fit1_state.1 = true /\
  exists r l, last fit1_state.2 = Some (r, l) /\ getattr_num fit1_state.1 "richness" = Ok r.
Proof.
  split; [vmr|]. split; [vmr|].
  apply (fit_richness_final_richness catalog pixels_interior pix_lonlat obj_lonlat area_pixel
           kernel_pdf isochrone_pdf isochrone_observableFraction in_interior ln_pos vertex_x
           atol_default maxiter_default (engine1, []) fit1_state fit1_loglike fit1_richness
           fit1_parabola); vmr.
Defined.

(** Witness for [fit_richness_evaluations]. *)
Lemma fit_richness_evaluations_witness :
  fit_d kernel_pdf vertex_x atol_default maxiter_default (engine1, []) =
    Ok ((fit1_loglike, fit1_richness, Some fit1_parabola), fit1_state) /\
  length fit1_state.2 <= length (engine1, [] : list (fl * fl)).2 + (maxiter_default + 4).
Proof.
  split; [vmr|].
  apply (fit_richness_evaluations catalog pixels_interior pix_lonlat obj_lonlat area_pixel
           kernel_pdf isochrone_pdf isochrone_observableFraction in_interior ln_pos vertex_x
           atol_default maxiter_default (engine1, []) fit1_state
           (fit1_loglike, fit1_richness, Some fit1_parabola)); vmr.
Defined.

(** Witness for [richness_interval_final_richness]. *)
Lemma richness_interval_final_richness_witness :
  richness_owned engine1 = true /\
  interval_d kernel_pdf vertex_x (Fin (6827 # 10000)) 3 (engine1, []) =
    Ok (interval3_ci, interval3_state) /\
  richness_owned interval3_state.1 = true /\
  exists r l, last interval3_state.2 = Some (r, l) /\
    getattr_num interval3_state.1 "richness" = Ok r.
Proof.
  split; [vmr|]. split; [vmr|].
  apply (richness_interval_final_richness catalog pixels_interior pix_lonlat obj_lonlat
           area_pixel kernel_pdf isochrone_pdf isochrone_observableFraction in_interior ln_pos
           vertex_x profileUpperLimit confidenceInterval (Fin (6827 # 10000)) 3%Z (engine1, [])
           interval3_state interval3_ci); vmr.
Defined.
